(** * JSON-RPC / TypeScript generator: message and service emitters

    A shallow embedding of [src/ts/message.ts] (printMessage) and
    [src/service/jsonrpc.ts] (generateTypescriptDefinition and its helpers),
    with the properties of the emitted text that the specification states.

    JavaScript strings are modelled as [string], exceptions as the [Throw]
    branch of [result], the export map as finite maps keyed by the fully
    qualified type name, and the text buffers as records whose output is
    threaded explicitly through every call that appends to them. *)

From Stdlib Require Import ZArith String Ascii List Bool Lia.
From stdpp Require Import base option list gmap strings.

Local Open Scope Z_scope.

(** ** Exceptions *)

(** The two [throw new Error(...)] statements of printMessage get a
    constructor each; [TypeError] is what the runtime raises on a property
    access on [undefined]; [HelperError] is an error thrown by an imported
    helper. *)
Inductive exn : Type :=
  | NoMessageExport (fullTypeName : string)
  | NoEnumExport (fullTypeName : string)
  | TypeError
  | HelperError (message : string).

Inductive result (A : Type) : Type :=
  | Ok (a : A)
  | Throw (e : exn).
Arguments Ok {A} a.
Arguments Throw {A} e.

#[global] Instance result_ret : MRet result := λ A a, Ok a.
#[global] Instance result_bind : MBind result := λ A B f m,
  match m with
  | Ok a => f a
  | Throw e => Throw e
  end.

#[global] Instance result_fmap : FMap result := λ A B f m,
  match m with
  | Ok a => Ok (f a)
  | Throw e => Throw e
  end.

(** The message of the [Error] object as the source builds it. *)
Definition exn_message (e : exn) : string :=
  match e with
  | NoMessageExport n => "No message export for: " +:+ n
  | NoEnumExport n => "No enum export for: " +:+ n
  | TypeError => "TypeError"
  | HelperError m => m
  end.

Definition throws {A} (r : result A) : Prop := ∃ e, r = Throw e.

(** A call to an imported helper that may throw: the helper's outcome is
    [inr] of what it returns or [inl] of the message of its error. *)
Definition helper {A} (outcome : string + A) : result A :=
  match outcome with
  | inl message => Throw (HelperError message)
  | inr a => Ok a
  end.

(** [forEach] with a callback that may throw: the state reaches the next
    element only when the callback returned. *)
Definition forEach {A S : Type} (f : S → A → result S) : list A → S → result S :=
  fix go (l : list A) (s : S) : result S :=
    match l with
    | [] => Ok s
    | a :: l' =>
        match f s a with
        | Ok s' => go l' s'
        | Throw e => Throw e
        end
    end.

(** [Array.prototype.map] with a callback that may throw. *)
Fixpoint mapArray {A B : Type} (f : A → result B) (l : list A) : result (list B) :=
  match l with
  | [] => Ok []
  | a :: l' =>
      match f a with
      | Ok b =>
          match mapArray f l' with
          | Ok bs => Ok (b :: bs)
          | Throw e => Throw e
          end
      | Throw e => Throw e
      end
  end.

(** [Array.prototype.some]: stops at the first element the callback accepts. *)
Fixpoint some {A : Type} (f : A → result bool) (l : list A) : result bool :=
  match l with
  | [] => Ok false
  | a :: l' =>
      match f a with
      | Ok true => Ok true
      | Ok false => some f l'
      | Throw e => Throw e
      end
  end.

(** [Array.prototype.filter] with a callback that may throw. *)
Fixpoint filterArray {A : Type} (f : A → result bool) (l : list A) : result (list A) :=
  match l with
  | [] => Ok []
  | a :: l' =>
      match f a with
      | Ok b =>
          match filterArray f l' with
          | Ok r => Ok (if b then a :: r else r)
          | Throw e => Throw e
          end
      | Throw e => Throw e
      end
  end.

(** ** Strings *)

(** [s.slice(1)] and [s.substr(1)]. *)
Definition slice1 (s : string) : string :=
  match s with
  | EmptyString => EmptyString
  | String _ r => r
  end.

(** [s.indexOf(p)], -1 when [p] does not occur. *)
Definition indexOf (s p : string) : Z :=
  match String.index 0 p s with
  | Some n => Z.of_nat n
  | None => -1
  end.

(** [c.toLowerCase()] on one code unit, ASCII letters only. *)
Definition toLowerCase (c : ascii) : ascii :=
  let n := nat_of_ascii c in
  if (Nat.leb 65 n && Nat.leb n 90)%bool then ascii_of_nat (n + 32) else c.

(** The line terminator. *)
Definition nl : string := String "010"%char EmptyString.

(** A double quote, and a text between double quotes. *)
Definition dq : string := String "034"%char EmptyString.
Definition quoted (s : string) : string := dq +:+ s +:+ dq.

Fixpoint repeatString (s : string) (n : nat) : string :=
  match n with
  | O => EmptyString
  | S n' => s +:+ repeatString s n'
  end.

Definition concatStrings (l : list string) : string :=
  fold_right String.append EmptyString l.

(** ** Descriptors (google-protobuf) *)

Inductive FieldType : Type :=
  | TYPE_DOUBLE | TYPE_FLOAT | TYPE_INT64 | TYPE_UINT64 | TYPE_INT32
  | TYPE_FIXED64 | TYPE_FIXED32 | TYPE_BOOL | TYPE_STRING | TYPE_GROUP
  | TYPE_MESSAGE | TYPE_BYTES | TYPE_UINT32 | TYPE_ENUM | TYPE_SFIXED32
  | TYPE_SFIXED64 | TYPE_SINT32 | TYPE_SINT64.

#[global] Instance FieldType_eq_dec : EqDecision FieldType.
Proof. solve_decision. Defined.

Definition MESSAGE_TYPE : FieldType := TYPE_MESSAGE.
Definition BYTES_TYPE : FieldType := TYPE_BYTES.
Definition ENUM_TYPE : FieldType := TYPE_ENUM.

Inductive Label : Type := LABEL_OPTIONAL | LABEL_REQUIRED | LABEL_REPEATED.

#[global] Instance Label_eq_dec : EqDecision Label.
Proof. solve_decision. Defined.

Inductive JSType : Type := JS_NORMAL | JS_STRING | JS_NUMBER.

Record FieldOptions : Type := { getJstype : option JSType }.

Record MessageOptions : Type := { getMapEntry : bool }.

(** [getOneofIndex] is [None] when [hasOneofIndex()] is false. *)
Module FieldDescriptorProto.
Record t : Type := {
    getName : string;
    getTypeName : string;
    getType : FieldType;
    getLabel : Label;
    getOneofIndex : option Z;
    getOptions : option FieldOptions
  }.
End FieldDescriptorProto.

Record EnumDescriptorProto : Type := { enumName : string; enumValues : list (string * Z) }.

Record OneofDescriptorProto : Type := { oneofName : string }.

Module DescriptorProto.
#[local] Unset Elimination Schemes.
Inductive t : Type := Build {
    getName : string;
    getOptions : option MessageOptions;
    getFieldList : list FieldDescriptorProto.t;
    getNestedTypeList : list t;
    getEnumTypeList : list EnumDescriptorProto;
    getOneofDeclList : list OneofDescriptorProto;
    getExtensionList : list FieldDescriptorProto.t
  }.
End DescriptorProto.

Module MethodDescriptorProto.
Record t : Type := {
    getName : string;
    getInputType : string;
    getOutputType : string;
    getClientStreaming : bool;
    getServerStreaming : bool
  }.
End MethodDescriptorProto.

Module ServiceDescriptorProto.
Record t : Type := {
    getName : string;
    getMethodList : list MethodDescriptorProto.t
  }.
End ServiceDescriptorProto.

Module FileDescriptorProto.
Record t : Type := {
    getName : string;
    getPackage : string;
    getSyntax : string;
    getDependencyList : list string;
    getMessageTypeList : list DescriptorProto.t;
    getServiceList : list ServiceDescriptorProto.t
  }.
End FileDescriptorProto.

(** ** Export map *)

(** Modelled from the spec: the SchemaGraph ([ExportMap], not among the
    sources), which resolves a fully qualified type name to its defining
    file, its package and, for a map-entry message, the recorded key and
    value types. Only the members the two emitters read are kept. *)
Record MapFieldOptions : Type := {
  key : FieldType * string;
  value : FieldType * string
}.

(** Modelled from the spec: the entry the SchemaGraph keeps for a message. *)
Record ExportMessageEntry : Type := {
  msgPkg : string;
  msgFileName : string;
  messageOptions : option MessageOptions;
  mapFieldOptions : option MapFieldOptions
}.

(** Modelled from the spec: the entry the SchemaGraph keeps for an enum. *)
Record ExportEnumEntry : Type := {
  enumPkg : string;
  enumFileName : string
}.

(** Modelled from the spec: the SchemaGraph itself, one table for the
    messages and one for the enums. *)
Record ExportMap : Type := {
  messageMap : gmap string ExportMessageEntry;
  enumMap : gmap string ExportEnumEntry
}.

(** Modelled from the spec: the two lookups of the SchemaGraph;
    [undefined] is [None]. *)
Definition getMessage (exportMap : ExportMap) (str : string) : option ExportMessageEntry :=
  messageMap exportMap !! str.

Definition getEnum (exportMap : ExportMap) (str : string) : option ExportEnumEntry :=
  enumMap exportMap !! str.

(** [options !== undefined && options.getMapEntry()] *)
Definition isMapEntry (options : option MessageOptions) : bool :=
  match options with
  | Some o => getMapEntry o
  | None => false
  end.

(** ** Imported helpers *)

(** The functions and tables the two source files import from the rest of
    the repository ([util], [FieldTypes], [WellKnown], the enum, oneof and
    extension renderers). Their bodies are not part of the two files;
    every statement below holds for any implementation. The helpers that
    resolve names through the export map may throw. *)
Class Imported : Type := {
  filePathToPseudoNamespace : string → string;
  isProto2 : FileDescriptorProto.t → bool;
  withinNamespaceFromExportEntry : string → ExportMessageEntry + ExportEnumEntry → string;
  normaliseFieldObjectName : string → string;
  replaceProtoSuffix : string → string;
  getPathToRoot : string → string;
  getFieldType : FieldType → string → string → ExportMap → string + string;
  getTypeName : FieldType → string;
  WellKnownTypesMap : gmap string string;
  printEnum : EnumDescriptorProto → nat → string;
  printOneOfDecl : OneofDescriptorProto → list FieldDescriptorProto.t → nat → string;
  printExtension : string → ExportMap → FieldDescriptorProto.t → nat → string + string;
  indentUnit : string
}.

(** ** Text buffers *)

(** Modelled from the spec: the indentation of a level, as many copies of
    one indentation step ([generateIndent], not among the sources). *)
Definition generateIndent `{Imported} (indentLevel : nat) : string :=
  repeatString indentUnit indentLevel.

(** Modelled from the spec: the TextEmitter ([Printer], not among the
    sources), an append-only text buffer that prefixes every line with the
    indentation of the level it was created for. *)
Module Printer.
Record t : Type := { indentStr : string; output : string }.
Definition new `{Imported} (indentLevel : nat) : t :=
  {| indentStr := generateIndent indentLevel; output := "" |}.
Definition printLn (str : string) (p : t) : t :=
  {| indentStr := indentStr p; output := output p +:+ indentStr p +:+ str +:+ nl |}.
Definition print (str : string) (p : t) : t :=
  {| indentStr := indentStr p; output := output p +:+ str |}.
Definition printEmptyLn (p : t) : t :=
  {| indentStr := indentStr p; output := output p +:+ nl |}.
Definition printIndentedLn `{Imported} (str : string) (p : t) : t :=
  {| indentStr := indentStr p; output := output p +:+ indentStr p +:+ indentUnit +:+ str +:+ nl |}.
Definition getOutput (p : t) : string := output p.
End Printer.

(** Modelled from the spec: the scoped-indent view of a text buffer
    ([CodePrinter], not among the sources). A [CodePrinter] holds a
    reference to a [Printer]; here the referenced buffer is the [printer]
    component, and a caller that shares the buffer with another object
    passes it on explicitly. The line prefix is [depth] copies of one
    indentation step (none when the depth is not positive). *)
Module CodePrinter.
Record t : Type := { depth : Z; printer : Printer.t }.
Definition new (depth : Z) (printer : Printer.t) : t :=
  {| depth := depth; printer := printer |}.
Definition indent (cp : t) : t :=
  {| depth := depth cp + 1; printer := printer cp |}.
Definition dedent (cp : t) : t :=
  {| depth := depth cp - 1; printer := printer cp |}.
Definition printLn `{Imported} (line : string) (cp : t) : t :=
  {| depth := depth cp;
     printer := Printer.printLn (repeatString (generateIndent 1) (Z.to_nat (depth cp)) +:+ line) (printer cp) |}.
Definition printEmptyLn (cp : t) : t :=
  {| depth := depth cp; printer := Printer.printEmptyLn (printer cp) |}.
End CodePrinter.

(** Method chaining, [p.printLn(a).indent()]. *)
Notation "x |> f" := (f x) (at level 45, left associativity, only parsing).

(** ** src/ts/message.ts *)

Section Message.
Context `{Imported}.

Local Abbreviation Field := FieldDescriptorProto.t.

(** Lines 32-40: the field joins the group of its oneof index; the sparse
    array [oneOfGroups] is a finite map from the index. *)
Definition addToOneOfGroup (field : Field) (oneOfGroups : gmap Z (list Field)) : gmap Z (list Field) :=
  match FieldDescriptorProto.getOneofIndex field with
  | Some oneOfIndex =>
      match oneOfGroups !! oneOfIndex with
      | None => <[oneOfIndex := [field]]> oneOfGroups
      | Some existing => <[oneOfIndex := existing ++ [field]]> oneOfGroups
      end
  | None => oneOfGroups
  end.

(** Lines 82-95: a scalar's type name, with the jstype override. *)
Definition scalarExportType (field : Field) : string :=
  match FieldDescriptorProto.getOptions field with
  | Some options =>
      match getJstype options with
      | Some JS_NUMBER => "number"
      | Some JS_STRING => "string"
      | Some JS_NORMAL => getTypeName (FieldDescriptorProto.getType field)
      | None => getTypeName (FieldDescriptorProto.getType field)
      end
  | None => getTypeName (FieldDescriptorProto.getType field)
  end.

(** Lines 108-120: the optional marker of a singular member. *)
Definition canBeUndefined (fileDescriptor : FileDescriptorProto.t) (field : Field) : bool :=
  if decide (FieldDescriptorProto.getType field = MESSAGE_TYPE) then
    negb (isProto2 fileDescriptor)
    || bool_decide (FieldDescriptorProto.getLabel field = LABEL_OPTIONAL)
  else
    isProto2 fileDescriptor.

(** Lines 98-122: the member line of a field whose type expression is
    [exportType]. *)
Definition printMember (fileDescriptor : FileDescriptorProto.t) (field : Field)
    (exportType : string) (printer : Printer.t) : Printer.t :=
  let type := FieldDescriptorProto.getType field in
  if decide (FieldDescriptorProto.getLabel field = LABEL_REPEATED) then
    if decide (type = BYTES_TYPE) then
      printer |> Printer.printIndentedLn
        (FieldDescriptorProto.getName field +:+ ": Array<Uint8Array | string>;")
    else
      printer |> Printer.printIndentedLn
        (FieldDescriptorProto.getName field +:+ ": Array<" +:+ exportType +:+ ">;")
  else
    if decide (type = BYTES_TYPE) then
      printer |> Printer.printIndentedLn
        (FieldDescriptorProto.getName field +:+ ": Uint8Array | string;")
    else
      let fieldObjectType := exportType in
      let fieldObjectName := normaliseFieldObjectName (FieldDescriptorProto.getName field) in
      printer |> Printer.printIndentedLn
        (fieldObjectName +:+ (if canBeUndefined fileDescriptor field then "?" else "")
           +:+ ": " +:+ fieldObjectType +:+ ";").

(** What lines 43-96 leave for the rest of the callback: either the field
    is a map, with the key and value type expressions of its entry, or it
    has a type expression [exportType]. *)
Inductive Resolved : Type :=
  | IsMap (keyTypeName valueTypeName : string)
  | ExportType (exportType : string).

(** Lines 41-96: the type expression of a field. *)
Definition resolveField (fileName : string) (exportMap : ExportMap) (field : Field)
    : result Resolved :=
  let type := FieldDescriptorProto.getType field in
  let fullTypeName := slice1 (FieldDescriptorProto.getTypeName field) in
  if decide (type = MESSAGE_TYPE) then
    match getMessage exportMap fullTypeName with
    | None => Throw (NoMessageExport fullTypeName)
    | Some fieldMessageType =>
        if isMapEntry (messageOptions fieldMessageType) then
          match mapFieldOptions fieldMessageType with
          | None => Throw TypeError
          | Some options =>
              let keyTuple := key options in
              let keyType := keyTuple.1 in
              keyTypeName ← helper (getFieldType keyType keyTuple.2 fileName exportMap);
              let valueTuple := value options in
              let valueType := valueTuple.1 in
              valueTypeName ← helper (getFieldType valueType valueTuple.2 fileName exportMap);
              let valueTypeName :=
                if decide (valueType = BYTES_TYPE) then "Uint8Array | string"
                else valueTypeName in
              Ok (IsMap keyTypeName valueTypeName)
          end
        else
          let withinNamespace :=
            withinNamespaceFromExportEntry fullTypeName (inl fieldMessageType) in
          if decide (msgFileName fieldMessageType = fileName) then
            Ok (ExportType withinNamespace)
          else
            Ok (ExportType (filePathToPseudoNamespace (msgFileName fieldMessageType)
                              +:+ "." +:+ withinNamespace))
    end
  else if decide (type = ENUM_TYPE) then
    match getEnum exportMap fullTypeName with
    | None => Throw (NoEnumExport fullTypeName)
    | Some fieldEnumType =>
        let withinNamespace :=
          withinNamespaceFromExportEntry fullTypeName (inr fieldEnumType) in
        if decide (enumFileName fieldEnumType = fileName) then
          Ok (ExportType withinNamespace)
        else
          Ok (ExportType (filePathToPseudoNamespace (enumFileName fieldEnumType)
                            +:+ "." +:+ withinNamespace))
    end
  else
    Ok (ExportType (scalarExportType field)).

(** Lines 31-123: the callback of [getFieldList().forEach]. Its state is
    the printer and the oneof groups. A map field prints its line and
    returns (lines 61-62); any other field goes on to lines 98-122. *)
Definition printField (fileName : string) (exportMap : ExportMap)
    (fileDescriptor : FileDescriptorProto.t)
    (st : Printer.t * gmap Z (list Field)) (field : Field)
    : result (Printer.t * gmap Z (list Field)) :=
  let printer := st.1 in
  let oneOfGroups := addToOneOfGroup field st.2 in
  resolved ← resolveField fileName exportMap field;
  match resolved with
  | IsMap keyTypeName valueTypeName =>
      Ok (printer |> Printer.printIndentedLn
            (FieldDescriptorProto.getName field +:+ ": Map<" +:+ keyTypeName
               +:+ ", " +:+ valueTypeName +:+ ">;"),
          oneOfGroups)
  | ExportType exportType =>
      Ok (printMember fileDescriptor field exportType printer, oneOfGroups)
  end.

(** Lines 129-135: a nested message's text is appended unless it is empty. *)
Definition printNested (msgOutput : string) (printer : Printer.t) : Printer.t :=
  if decide (msgOutput = "") then printer else printer |> Printer.print msgOutput.

(** Lines 136-141: the enums, then the oneof declarations with the group
    collected for their index. *)
Definition printEnums (enums : list EnumDescriptorProto) (indentLevel : nat)
    (printer : Printer.t) : Printer.t :=
  foldl (λ p enumType, p |> Printer.print (printEnum enumType (indentLevel + 1)%nat))
    printer enums.

Definition printOneOfs (decls : list OneofDescriptorProto) (oneOfGroups : gmap Z (list Field))
    (indentLevel : nat) (printer : Printer.t) : Printer.t :=
  foldl (λ p d, p |> Printer.print d) printer
    (imap (λ index oneOfDecl,
             printOneOfDecl oneOfDecl (default [] (oneOfGroups !! Z.of_nat index))
               (indentLevel + 1)%nat)
          decls).

(** Lines 142-144. *)
Definition printExtensions (fileName : string) (exportMap : ExportMap)
    (extensions : list Field) (indentLevel : nat) (printer : Printer.t) : result Printer.t :=
  forEach (λ p extension,
             out ← helper (printExtension fileName exportMap extension (indentLevel + 1)%nat);
             Ok (p |> Printer.print out))
    extensions printer.

Fixpoint printMessage (fileName : string) (exportMap : ExportMap)
    (messageDescriptor : DescriptorProto.t) (indentLevel : nat)
    (fileDescriptor : FileDescriptorProto.t) {struct messageDescriptor} : result string :=
  let messageName := DescriptorProto.getName messageDescriptor in
  let messageOptions := DescriptorProto.getOptions messageDescriptor in
  if isMapEntry messageOptions then Ok ""
  else
    let printer := Printer.new indentLevel in
    let printer := printer |> Printer.printLn ("export class " +:+ messageName +:+ " {") in
    st ← forEach (printField fileName exportMap fileDescriptor)
           (DescriptorProto.getFieldList messageDescriptor) (printer, ∅);
    let oneOfGroups := st.2 in
    printer ← forEach (λ p nested,
                 msgOutput ← printMessage fileName exportMap nested (indentLevel + 1)%nat
                               fileDescriptor;
                 Ok (printNested msgOutput p))
              (DescriptorProto.getNestedTypeList messageDescriptor) st.1;
    let printer :=
      printEnums (DescriptorProto.getEnumTypeList messageDescriptor) indentLevel printer in
    let printer :=
      printOneOfs (DescriptorProto.getOneofDeclList messageDescriptor) oneOfGroups
        indentLevel printer in
    printer ← printExtensions fileName exportMap
                (DescriptorProto.getExtensionList messageDescriptor) indentLevel printer;
    let printer := printer |> Printer.printLn "}" in
    Ok (Printer.getOutput printer).

End Message.

(** ** src/service/jsonrpc.ts *)

Module CallingTypes.
Record t : Type := { requestType : string; responseType : string }.
End CallingTypes.

Module ImportDescriptor.
Record t : Type := { namespace : string; path : string }.
End ImportDescriptor.

Module RPCMethodDescriptor.
Record t : Type := {
  nameAsPascalCase : string;
  nameAsCamelCase : string;
  functionName : string;
  serviceName : string;
  requestStream : bool;
  responseStream : bool;
  requestType : string;
  responseType : string
}.
End RPCMethodDescriptor.

Section Service.
Context `{Imported}.

Definition getCallingTypes (method : MethodDescriptorProto.t) (exportMap : ExportMap)
    : result CallingTypes.t :=
  requestType ← helper (getFieldType MESSAGE_TYPE
                          (slice1 (MethodDescriptorProto.getInputType method)) "" exportMap);
  responseType ← helper (getFieldType MESSAGE_TYPE
                           (slice1 (MethodDescriptorProto.getOutputType method)) "" exportMap);
  Ok {| CallingTypes.requestType := requestType;
        CallingTypes.responseType := responseType |}.

Definition isUsed (fileDescriptor : FileDescriptorProto.t) (pseudoNamespace : string)
    (exportMap : ExportMap) : result bool :=
  some (λ service,
    some (λ method,
      callingTypes ← getCallingTypes method exportMap;
      let namespacePackage := pseudoNamespace +:+ "." in
      Ok ((indexOf (CallingTypes.requestType callingTypes) namespacePackage =? 0)
          || (indexOf (CallingTypes.responseType callingTypes) namespacePackage =? 0)))
      (ServiceDescriptorProto.getMethodList service))
    (FileDescriptorProto.getServiceList fileDescriptor).

(** *** class RPCDescriptor *)

Record RPCDescriptor : Type := {
  protoService : ServiceDescriptorProto.t;
  rpcExportMap : ExportMap
}.

Definition name (d : RPCDescriptor) : string :=
  ServiceDescriptorProto.getName (protoService d).

(** [name[0].toLowerCase() + name.substr(1)]; [name[0]] is [undefined] for
    the empty name, and calling a method on it is a TypeError. *)
Definition lowerFirst (s : string) : result string :=
  match s with
  | EmptyString => Throw TypeError
  | String c _ => Ok (String (toLowerCase c) EmptyString +:+ slice1 s)
  end.

Definition rpcMethod (d : RPCDescriptor) (method : MethodDescriptorProto.t)
    : result RPCMethodDescriptor.t :=
  callingTypes ← getCallingTypes method (rpcExportMap d);
  nameAsCamelCase ← lowerFirst (MethodDescriptorProto.getName method);
  Ok {| RPCMethodDescriptor.nameAsPascalCase := MethodDescriptorProto.getName method;
        RPCMethodDescriptor.nameAsCamelCase := nameAsCamelCase;
        RPCMethodDescriptor.functionName :=
          normaliseFieldObjectName (MethodDescriptorProto.getName method);
        RPCMethodDescriptor.serviceName := name d;
        RPCMethodDescriptor.requestStream := MethodDescriptorProto.getClientStreaming method;
        RPCMethodDescriptor.responseStream := MethodDescriptorProto.getServerStreaming method;
        RPCMethodDescriptor.requestType := CallingTypes.requestType callingTypes;
        RPCMethodDescriptor.responseType := CallingTypes.responseType callingTypes |}.

Definition methods (d : RPCDescriptor) : result (list RPCMethodDescriptor.t) :=
  mapArray (rpcMethod d) (ServiceDescriptorProto.getMethodList (protoService d)).

(** *** class RPCServiceDescriptor *)

Record RPCServiceDescriptor : Type := {
  fileDescriptor : FileDescriptorProto.t;
  sdExportMap : ExportMap;
  pathToRoot : string
}.

Definition newRPCServiceDescriptor (fileDescriptor : FileDescriptorProto.t)
    (exportMap : ExportMap) : RPCServiceDescriptor :=
  {| fileDescriptor := fileDescriptor;
     sdExportMap := exportMap;
     pathToRoot := getPathToRoot (FileDescriptorProto.getName fileDescriptor) |}.

Definition filename (sd : RPCServiceDescriptor) : string :=
  FileDescriptorProto.getName (fileDescriptor sd).

Definition packageName (sd : RPCServiceDescriptor) : string :=
  FileDescriptorProto.getPackage (fileDescriptor sd).

(** Lines 121-134: the import of one dependency. *)
Definition dependencyImport (sd : RPCServiceDescriptor) (dependency : string)
    : ImportDescriptor.t :=
  let namespace := filePathToPseudoNamespace dependency in
  match WellKnownTypesMap !! dependency with
  | Some wellKnown =>
      {| ImportDescriptor.namespace := namespace; ImportDescriptor.path := wellKnown |}
  | None =>
      {| ImportDescriptor.namespace := namespace;
         ImportDescriptor.path :=
           pathToRoot sd +:+ replaceProtoSuffix (replaceProtoSuffix dependency) |}
  end.

(** Lines 135-138. *)
Definition hostProto (sd : RPCServiceDescriptor) : ImportDescriptor.t :=
  {| ImportDescriptor.namespace := filePathToPseudoNamespace (filename sd);
     ImportDescriptor.path := pathToRoot sd +:+ replaceProtoSuffix (filename sd) |}.

Definition imports (sd : RPCServiceDescriptor) : result (list ImportDescriptor.t) :=
  used ← filterArray
            (λ dependency,
               isUsed (fileDescriptor sd) (filePathToPseudoNamespace dependency)
                 (sdExportMap sd))
            (FileDescriptorProto.getDependencyList (fileDescriptor sd));
  let dependencies := map (dependencyImport sd) used in
  Ok ([hostProto sd] ++ dependencies).

Definition services (sd : RPCServiceDescriptor) : list RPCDescriptor :=
  map (λ service, {| protoService := service; rpcExportMap := sdExportMap sd |})
    (FileDescriptorProto.getServiceList (fileDescriptor sd)).

(** *** Client stubs *)

Local Abbreviation Method := RPCMethodDescriptor.t.

Definition printUnaryStubMethodTypes (printer : CodePrinter.t) (service : RPCDescriptor)
    (method : Method) : CodePrinter.t :=
  printer
  |> CodePrinter.printLn (RPCMethodDescriptor.functionName method +:+ "(")
  |> CodePrinter.indent
  |> CodePrinter.printLn
       ("requestMessage: " +:+ RPCMethodDescriptor.requestType method +:+ ",")
  |> CodePrinter.printLn
       ("options?: {[key: string]: string}): Observable<"
          +:+ RPCMethodDescriptor.responseType method +:+ "> {")
  |> CodePrinter.printLn
       ("let rpcRequest = <JsonRPCRequest>{" +:+ quoted "id" +:+ ": " +:+ quoted "1" +:+ ", "
          +:+ quoted "method" +:+ ": "
          +:+ quoted (name service +:+ "." +:+ RPCMethodDescriptor.nameAsPascalCase method)
          +:+ ", " +:+ quoted "params" +:+ ": requestMessage, "
          +:+ quoted "jsonrpc" +:+ ": " +:+ quoted "2.0" +:+ "};")
  |> CodePrinter.printLn
       ("return this.call<" +:+ RPCMethodDescriptor.responseType method
          +:+ ">(`${this.serviceHost}/rpc`, rpcRequest, options);")
  |> CodePrinter.dedent
  |> CodePrinter.printLn "}"
  |> CodePrinter.printEmptyLn.

Definition printUnaryStubBatchMethodTypes (printer : CodePrinter.t) (service : RPCDescriptor)
    (method : Method) : CodePrinter.t :=
  printer
  |> CodePrinter.printLn (RPCMethodDescriptor.functionName method +:+ "Batch(")
  |> CodePrinter.indent
  |> CodePrinter.printLn
       ("requestMessages: " +:+ RPCMethodDescriptor.requestType method +:+ "[],")
  |> CodePrinter.printLn
       ("options?: {[key: string]: string}): Observable<"
          +:+ RPCMethodDescriptor.responseType method +:+ "[]> {")
  |> CodePrinter.printLn
       ("let rpcRequests = requestMessages.map((r) => {return <JsonRPCRequest>{"
          +:+ quoted "id" +:+ ": " +:+ quoted "1" +:+ ", "
          +:+ quoted "method" +:+ ": "
          +:+ quoted (name service +:+ "." +:+ RPCMethodDescriptor.nameAsPascalCase method)
          +:+ ", " +:+ quoted "params" +:+ ": r, "
          +:+ quoted "jsonrpc" +:+ ": " +:+ quoted "2.0" +:+ "};});")
  |> CodePrinter.printLn
       ("return this.callBatch<" +:+ RPCMethodDescriptor.responseType method
          +:+ "[]>(`${this.serviceHost}/rpc`, rpcRequests, options);")
  |> CodePrinter.dedent
  |> CodePrinter.printLn "}"
  |> CodePrinter.printEmptyLn.

(** Lines 230-246: the opening of the Client class and its two call helpers. *)
Definition printClientHead (printer : CodePrinter.t) : CodePrinter.t :=
  printer
  |> CodePrinter.printLn "export class Client {" |> CodePrinter.indent
  |> CodePrinter.printLn "private serviceHost: string;"
  |> CodePrinter.printEmptyLn
  |> CodePrinter.printLn "constructor(serviceHost: string, private http: HttpClient) {"
  |> CodePrinter.indent
  |> CodePrinter.printLn "this.serviceHost = serviceHost;" |> CodePrinter.dedent
  |> CodePrinter.printLn "}"
  |> CodePrinter.printEmptyLn
  |> CodePrinter.printLn
       "call<T>(url: string, request: any, options?: {[key: string]: string}): Observable<T> {"
  |> CodePrinter.indent
  |> CodePrinter.printLn
       "return this.http.post<JsonRPCResponse>(url, request, options).pipe(map(response => { return response.result; }), catchError(error => { return throwError(error); }));"
  |> CodePrinter.dedent
  |> CodePrinter.printLn "}"
  |> CodePrinter.printEmptyLn
  |> CodePrinter.printLn
       "callBatch<T>(url: string, request: any, options?: {[key: string]: string}): Observable<T> {"
  |> CodePrinter.indent
  |> CodePrinter.printLn "// @ts-ignore"
  |> CodePrinter.printLn
       "return this.http.post<JsonRPCResponse[]>(url, request, options).pipe(map(response => { return response.map((r) => { return <T>r.result; }) }), catchError(error => { return throwError(error); }));"
  |> CodePrinter.dedent
  |> CodePrinter.printLn "}"
  |> CodePrinter.printEmptyLn.

(** Lines 248-254: the callback of [service.methods.forEach]. *)
Definition printStub (service : RPCDescriptor) (printer : CodePrinter.t) (method : Method)
    : CodePrinter.t :=
  if negb (RPCMethodDescriptor.requestStream method)
     && negb (RPCMethodDescriptor.responseStream method)
  then
    let printer := printUnaryStubMethodTypes printer service method in
    printUnaryStubBatchMethodTypes printer service method
  else printer.

(** The function appends to the buffer it is given; the buffer after the
    call is the result. *)
Definition printServiceStubTypes (methodPrinter : Printer.t) (service : RPCDescriptor)
    : result Printer.t :=
  let printer := CodePrinter.new 1 methodPrinter in
  let printer := printClientHead printer in
  ms ← methods service;
  let printer := foldl (printStub service) printer ms in
  let printer := printer |> CodePrinter.dedent |> CodePrinter.printLn "}" in
  Ok (CodePrinter.printer printer).

(** *** generateTypescriptDefinition *)

(** Lines 156-158. *)
Definition printHeader (sd : RPCServiceDescriptor) (printer : CodePrinter.t) : CodePrinter.t :=
  printer
  |> CodePrinter.printLn ("// package: " +:+ packageName sd)
  |> CodePrinter.printLn ("// file: " +:+ filename sd)
  |> CodePrinter.printEmptyLn.

(** Lines 165-172. *)
Definition printImports (importList : list ImportDescriptor.t) (printer : CodePrinter.t)
    : CodePrinter.t :=
  foldl (λ p importDescriptor,
           p |> CodePrinter.printLn
             ("import * as " +:+ ImportDescriptor.namespace importDescriptor +:+ " from "
                +:+ quoted (ImportDescriptor.path importDescriptor) +:+ ";"))
    printer importList
  |> CodePrinter.printLn ("import {HttpClient} from " +:+ quoted "@angular/common/http" +:+ ";")
  |> CodePrinter.printLn ("import {Observable, throwError} from " +:+ quoted "rxjs" +:+ ";")
  |> CodePrinter.printLn ("import {catchError, map} from " +:+ quoted "rxjs/operators" +:+ ";")
  |> CodePrinter.printEmptyLn.

(** Lines 176-189: the two envelope types. *)
Definition printEnvelopeTypes (printer : CodePrinter.t) : CodePrinter.t :=
  printer
  |> CodePrinter.printLn "class JsonRPCRequest {" |> CodePrinter.indent
  |> CodePrinter.printLn "public jsonrpc: string;"
  |> CodePrinter.printLn "public id: string;"
  |> CodePrinter.printLn "public method: string;"
  |> CodePrinter.printLn "public params: any;" |> CodePrinter.dedent
  |> CodePrinter.printLn "}"
  |> CodePrinter.printEmptyLn
  |> CodePrinter.printLn "type JsonRPCResponse = {" |> CodePrinter.indent
  |> CodePrinter.printLn "readonly result: any;"
  |> CodePrinter.printLn "readonly id: string;"
  |> CodePrinter.printLn "readonly jsonrpc: string;" |> CodePrinter.dedent
  |> CodePrinter.printLn "}"
  |> CodePrinter.printEmptyLn.

(** Lines 195-203: the type alias of one method. *)
Definition printMethodType (printer : CodePrinter.t) (method : Method) : CodePrinter.t :=
  printer
  |> CodePrinter.printLn
       ("type " +:+ RPCMethodDescriptor.serviceName method
          +:+ RPCMethodDescriptor.nameAsPascalCase method +:+ " = {")
  |> CodePrinter.indent
  |> CodePrinter.printLn "readonly methodName: string;"
  |> CodePrinter.printLn
       ("readonly service: typeof " +:+ RPCMethodDescriptor.serviceName method +:+ ";")
  |> CodePrinter.printLn
       ("readonly requestType: typeof " +:+ RPCMethodDescriptor.requestType method +:+ ";")
  |> CodePrinter.printLn
       ("readonly responseType: typeof " +:+ RPCMethodDescriptor.responseType method +:+ ";")
  |> CodePrinter.dedent |> CodePrinter.printLn "};"
  |> CodePrinter.printEmptyLn.

(** Lines 207-209: the static member of one method. *)
Definition printMethodMember (printer : CodePrinter.t) (method : Method) : CodePrinter.t :=
  printer
  |> CodePrinter.printLn
       ("static readonly " +:+ RPCMethodDescriptor.nameAsPascalCase method +:+ ": "
          +:+ RPCMethodDescriptor.serviceName method
          +:+ RPCMethodDescriptor.nameAsPascalCase method +:+ ";").

(** Lines 193-213: the callback of the first [services.forEach]; the
    [methods] getter is evaluated twice. *)
Definition printServiceTypes (printer : CodePrinter.t) (service : RPCDescriptor)
    : result CodePrinter.t :=
  ms ← methods service;
  let printer := foldl printMethodType printer ms in
  let printer :=
    printer |> CodePrinter.printLn ("class " +:+ name service +:+ " {") |> CodePrinter.indent
            |> CodePrinter.printLn "static readonly serviceName: string;" in
  ms ← methods service;
  let printer := foldl printMethodMember printer ms in
  Ok (printer |> CodePrinter.dedent |> CodePrinter.printLn "}" |> CodePrinter.printEmptyLn).

(** Lines 218-221: the callback of the second [services.forEach]. The stub
    printer writes to [outPrinter], the buffer [printer] refers to. *)
Definition printServiceClient (printer : CodePrinter.t) (service : RPCDescriptor)
    : result CodePrinter.t :=
  outPrinter ← printServiceStubTypes (CodePrinter.printer printer) service;
  Ok ({| CodePrinter.depth := CodePrinter.depth printer; CodePrinter.printer := outPrinter |}
      |> CodePrinter.printEmptyLn).

Definition generateTypescriptDefinition (fileDescriptor : FileDescriptorProto.t)
    (exportMap : ExportMap) : result string :=
  let serviceDescriptor := newRPCServiceDescriptor fileDescriptor exportMap in
  let outPrinter := Printer.new 0 in
  let printer := CodePrinter.new 0 outPrinter in
  let printer := printHeader serviceDescriptor printer in
  match services serviceDescriptor with
  | [] => Ok (Printer.getOutput (CodePrinter.printer printer))
  | first :: _ =>
      importList ← imports serviceDescriptor;
      let printer := printImports importList printer in
      let printer :=
        printer |> CodePrinter.printLn ("export namespace " +:+ name first +:+ " {")
                |> CodePrinter.indent in
      let printer := printEnvelopeTypes printer in
      printer ← forEach printServiceTypes (services serviceDescriptor) printer;
      printer ← forEach printServiceClient (services serviceDescriptor) printer;
      let printer := printer |> CodePrinter.dedent |> CodePrinter.printLn "}" in
      Ok (Printer.getOutput (CodePrinter.printer printer))
  end.

End Service.

(** ** A concrete set of helpers and a sample schema *)

(** Modelled from the spec: one implementation of the imported helpers
    ([util], [FieldTypes], [WellKnown] and the sub-renderers, not among the
    sources), used to evaluate the emitters on explicit inputs. The
    pseudo-namespace is an identifier derived from the path, the import
    path is relative to the output root with the schema suffix rewritten,
    type references resolve through the export map and fail when the name
    has no entry, and the call identifier of a method starts in lower
    case. *)
Module Sample.

Fixpoint mapChars (f : ascii → ascii) (s : string) : string :=
  match s with
  | EmptyString => EmptyString
  | String c r => String (f c) (mapChars f r)
  end.

Definition stripProto (s : string) : string :=
  let n := String.length s in
  if decide (String.substring (n - 6) 6 s = ".proto")
  then String.substring 0 (n - 6) s else s.

Definition pseudoNamespace (filePath : string) : string :=
  mapChars (λ c, if decide (c = "/"%char ∨ c = "."%char ∨ c = "-"%char) then "_"%char else c)
    (stripProto filePath) +:+ "_pb".

Definition protoSuffix (s : string) : string :=
  if decide (stripProto s = s) then s else stripProto s +:+ "_pb".

Fixpoint countSlashes (s : string) : nat :=
  match s with
  | EmptyString => O
  | String c r => ((if decide (c = "/"%char) then 1 else 0) + countSlashes r)%nat
  end.

Definition pathToRootOf (s : string) : string :=
  match countSlashes s with
  | O => "./"
  | n => repeatString "../" n
  end.

Definition within (fullName pkg : string) : string :=
  if decide (pkg = "") then fullName
  else String.substring (String.length pkg + 1)
         (String.length fullName - (String.length pkg + 1)) fullName.

Definition typeName (t : FieldType) : string :=
  match t with
  | TYPE_STRING => "string"
  | TYPE_BOOL => "boolean"
  | TYPE_BYTES => "Uint8Array"
  | TYPE_MESSAGE => "Message"
  | TYPE_ENUM => "Enum"
  | TYPE_GROUP => "Object"
  | _ => "number"
  end.

Definition fieldType (t : FieldType) (typeName_ currentFileName : string) (exportMap : ExportMap)
    : string + string :=
  if decide (t = MESSAGE_TYPE) then
    match getMessage exportMap typeName_ with
    | None => inl ("Could not getFieldType for message: " +:+ typeName_)
    | Some e =>
        let w := within typeName_ (msgPkg e) in
        inr (if decide (msgFileName e = currentFileName) then w
            else pseudoNamespace (msgFileName e) +:+ "." +:+ w)
    end
  else if decide (t = ENUM_TYPE) then
    match getEnum exportMap typeName_ with
    | None => inl ("Could not getFieldType for enum: " +:+ typeName_)
    | Some e =>
        let w := within typeName_ (enumPkg e) in
        inr (if decide (enumFileName e = currentFileName) then w
            else pseudoNamespace (enumFileName e) +:+ "." +:+ w)
    end
  else inr (typeName t).

Definition lowerInitial (s : string) : string :=
  match s with
  | EmptyString => EmptyString
  | String c r => String (toLowerCase c) r
  end.

Definition helpers : Imported := {|
  filePathToPseudoNamespace := pseudoNamespace;
  isProto2 := λ fd,
    bool_decide (FileDescriptorProto.getSyntax fd = ""
                 ∨ FileDescriptorProto.getSyntax fd = "proto2");
  withinNamespaceFromExportEntry := λ n e,
    within n (match e with inl m => msgPkg m | inr en => enumPkg en end);
  normaliseFieldObjectName := lowerInitial;
  replaceProtoSuffix := protoSuffix;
  getPathToRoot := pathToRootOf;
  getFieldType := fieldType;
  getTypeName := typeName;
  WellKnownTypesMap :=
    {[ "google/protobuf/empty.proto" := "google-protobuf/google/protobuf/empty_pb" ]};
  printEnum := λ e lvl,
    repeatString "  " lvl +:+ "export enum " +:+ enumName e +:+ " {}" +:+ nl;
  printOneOfDecl := λ d group lvl,
    repeatString "  " lvl +:+ "// oneof " +:+ oneofName d +:+ nl;
  printExtension := λ _ _ _ _, inr "";
  indentUnit := "  "
|}.

Definition field (n : string) (t : FieldType) (tn : string) (l : Label) : FieldDescriptorProto.t :=
  {| FieldDescriptorProto.getName := n;
     FieldDescriptorProto.getTypeName := tn;
     FieldDescriptorProto.getType := t;
     FieldDescriptorProto.getLabel := l;
     FieldDescriptorProto.getOneofIndex := None;
     FieldDescriptorProto.getOptions := None |}.

Definition message (n : string) (o : option MessageOptions)
    (fields : list FieldDescriptorProto.t) (nested : list DescriptorProto.t) : DescriptorProto.t :=
  DescriptorProto.Build n o fields nested [] [] [].

Definition mapEntryOptions : option MessageOptions := Some {| getMapEntry := true |}.

(** [map<string, bytes> tags] of message [User], as the schema compiler
    desugars it. *)
Definition tagsEntry : DescriptorProto.t :=
  message "TagsEntry" mapEntryOptions
    [ field "key" TYPE_STRING "" LABEL_OPTIONAL;
      field "value" TYPE_BYTES "" LABEL_OPTIONAL ] [].

Definition avatar : FieldDescriptorProto.t := field "avatar" TYPE_BYTES "" LABEL_OPTIONAL.

(** A repeated byte-sequence field with a jstype override. *)
Definition chunks : FieldDescriptorProto.t :=
  {| FieldDescriptorProto.getName := "chunks";
     FieldDescriptorProto.getTypeName := "";
     FieldDescriptorProto.getType := TYPE_BYTES;
     FieldDescriptorProto.getLabel := LABEL_REPEATED;
     FieldDescriptorProto.getOneofIndex := None;
     FieldDescriptorProto.getOptions := Some {| getJstype := Some JS_STRING |} |}.

Definition names : FieldDescriptorProto.t := field "names" TYPE_STRING "" LABEL_REPEATED.

Definition tags : FieldDescriptorProto.t :=
  field "tags" TYPE_MESSAGE ".demo.User.TagsEntry" LABEL_REPEATED.

Definition manager : FieldDescriptorProto.t :=
  field "manager" TYPE_MESSAGE ".demo.User" LABEL_OPTIONAL.

Definition user : DescriptorProto.t :=
  message "User" None
    [ field "id" TYPE_INT64 "" LABEL_OPTIONAL;
      avatar; chunks; names; tags; manager;
      field "created" TYPE_MESSAGE ".google.protobuf.Empty" LABEL_OPTIONAL ]
    [ tagsEntry ].

(** A field whose type is in no file of the schema set, in a map entry and
    in an ordinary message. *)
Definition dangling : FieldDescriptorProto.t :=
  field "value" TYPE_MESSAGE ".demo.Missing" LABEL_OPTIONAL.

Definition scoresEntry : DescriptorProto.t :=
  message "ScoresEntry" mapEntryOptions
    [ field "key" TYPE_STRING "" LABEL_OPTIONAL; dangling ] [].

Definition broken : DescriptorProto.t :=
  message "Broken" None [ field "id" TYPE_INT64 "" LABEL_OPTIONAL ]
    [ message "Inner" None [ dangling ] [] ].

Definition entry (pkg file : string) (o : option MessageOptions) (m : option MapFieldOptions)
    : ExportMessageEntry :=
  {| msgPkg := pkg; msgFileName := file; messageOptions := o; mapFieldOptions := m |}.

Definition tagsOptions : MapFieldOptions :=
  {| key := (TYPE_STRING, ""); value := (TYPE_BYTES, "") |}.

Definition tagsExport : ExportMessageEntry :=
  entry "demo" "demo/user.proto" mapEntryOptions (Some tagsOptions).

Definition exportMap : ExportMap :=
  {| messageMap :=
       {[ "demo.User" := entry "demo" "demo/user.proto" None None;
          "demo.User.TagsEntry" := tagsExport;
          "demo.GetUserRequest" := entry "demo" "demo/user.proto" None None;
          "demo.GetUserResponse" := entry "demo" "demo/user.proto" None None;
          "google.protobuf.Empty" :=
            entry "google.protobuf" "google/protobuf/empty.proto" None None ]};
     enumMap := ∅ |}.

Definition method (n i o : string) (cs ss : bool) : MethodDescriptorProto.t :=
  {| MethodDescriptorProto.getName := n;
     MethodDescriptorProto.getInputType := i;
     MethodDescriptorProto.getOutputType := o;
     MethodDescriptorProto.getClientStreaming := cs;
     MethodDescriptorProto.getServerStreaming := ss |}.

Definition getUser : MethodDescriptorProto.t :=
  method "GetUser" ".demo.GetUserRequest" ".demo.GetUserResponse" false false.

Definition userService : ServiceDescriptorProto.t :=
  {| ServiceDescriptorProto.getName := "UserService";
     ServiceDescriptorProto.getMethodList :=
       [ getUser;
         method "Watch" ".demo.GetUserRequest" ".demo.GetUserResponse" true false;
         method "Ping" ".google.protobuf.Empty" ".google.protobuf.Empty" false false ] |}.

Definition file (services : list ServiceDescriptorProto.t) : FileDescriptorProto.t :=
  {| FileDescriptorProto.getName := "demo/user.proto";
     FileDescriptorProto.getPackage := "demo";
     FileDescriptorProto.getSyntax := "proto3";
     FileDescriptorProto.getDependencyList :=
       [ "google/protobuf/empty.proto"; "demo/unused.proto" ];
     FileDescriptorProto.getMessageTypeList := [ user ];
     FileDescriptorProto.getServiceList := services |}.

Definition proto3 : FileDescriptorProto.t := file [].

Definition withService : FileDescriptorProto.t := file [ userService ].

Definition userRPC : RPCDescriptor :=
  {| protoService := userService; rpcExportMap := exportMap |}.

(** The calling types of the three methods, and their descriptors. *)
Definition callingTypes : list CallingTypes.t :=
  [ {| CallingTypes.requestType := "demo_user_pb.GetUserRequest";
       CallingTypes.responseType := "demo_user_pb.GetUserResponse" |};
    {| CallingTypes.requestType := "demo_user_pb.GetUserRequest";
       CallingTypes.responseType := "demo_user_pb.GetUserResponse" |};
    {| CallingTypes.requestType := "google_protobuf_empty_pb.Empty";
       CallingTypes.responseType := "google_protobuf_empty_pb.Empty" |} ].

Definition rpc (n lower : string) (cs : bool) (req resp : string) : RPCMethodDescriptor.t :=
  {| RPCMethodDescriptor.nameAsPascalCase := n;
     RPCMethodDescriptor.nameAsCamelCase := lower;
     RPCMethodDescriptor.functionName := lower;
     RPCMethodDescriptor.serviceName := "UserService";
     RPCMethodDescriptor.requestStream := cs;
     RPCMethodDescriptor.responseStream := false;
     RPCMethodDescriptor.requestType := req;
     RPCMethodDescriptor.responseType := resp |}.

Definition getUserRPC : RPCMethodDescriptor.t :=
  rpc "GetUser" "getUser" false "demo_user_pb.GetUserRequest" "demo_user_pb.GetUserResponse".

Definition userMethods : list RPCMethodDescriptor.t :=
  [ getUserRPC;
    rpc "Watch" "watch" true "demo_user_pb.GetUserRequest" "demo_user_pb.GetUserResponse";
    rpc "Ping" "ping" false "google_protobuf_empty_pb.Empty" "google_protobuf_empty_pb.Empty" ].

End Sample.


(** ** Vocabulary of the statements *)

(** [extends p q]: [q] is [p] after some text was appended to it. *)
Definition extends (p q : Printer.t) : Prop :=
  Printer.indentStr q = Printer.indentStr p
  ∧ ∃ t, Printer.output q = Printer.output p +:+ t.

Section Vocabulary.
Context `{Imported}.

Local Abbreviation Field := FieldDescriptorProto.t.

(** printMessage on a message that is not a map entry, as the sequence of
    its loops. *)
Definition printMessageBody (fn : string) (em : ExportMap) (m : DescriptorProto.t)
    (lvl : nat) (fd : FileDescriptorProto.t) : result string :=
  st ← forEach (printField fn em fd) (DescriptorProto.getFieldList m)
         (Printer.printLn ("export class " +:+ DescriptorProto.getName m +:+ " {")
            (Printer.new lvl), ∅);
  printer ← forEach (λ p nested,
               msgOutput ← printMessage fn em nested (lvl + 1)%nat fd;
               Ok (printNested msgOutput p))
            (DescriptorProto.getNestedTypeList m) st.1;
  printer ← printExtensions fn em (DescriptorProto.getExtensionList m) lvl
              (printOneOfs (DescriptorProto.getOneofDeclList m) st.2 lvl
                 (printEnums (DescriptorProto.getEnumTypeList m) lvl printer));
  Ok (Printer.getOutput (Printer.printLn "}" printer)).

(** [declares ... m lvl line]: the text of message [m] printed at level
    [lvl] has the member line [line], indented one step inside the class. *)
Definition declares (fn : string) (em : ExportMap) (fd : FileDescriptorProto.t)
    (m : DescriptorProto.t) (lvl : nat) (line : string) : Prop :=
  ∀ out, printMessage fn em m lvl fd = Ok out →
    ∃ before after,
      out = before +:+ (generateIndent lvl +:+ indentUnit +:+ line +:+ nl) +:+ after.

(** The element type of a field: the byte union for a byte-sequence field,
    the resolved type expression otherwise. *)
Definition elementType (field : Field) (exportType : string) : string :=
  if decide (FieldDescriptorProto.getType field = BYTES_TYPE) then "Uint8Array | string"
  else exportType.

(** The field's type is a message that the export map records as a map
    entry. *)
Definition refersToMapEntry (em : ExportMap) (field : Field) : Prop :=
  FieldDescriptorProto.getType field = MESSAGE_TYPE
  ∧ ∃ e, getMessage em (slice1 (FieldDescriptorProto.getTypeName field)) = Some e
         ∧ isMapEntry (messageOptions e) = true.

(** A message with the map entries among its nested types removed. *)
Definition withoutNestedMapEntries (m : DescriptorProto.t) : DescriptorProto.t :=
  DescriptorProto.Build
    (DescriptorProto.getName m) (DescriptorProto.getOptions m)
    (DescriptorProto.getFieldList m)
    (List.filter (λ n, negb (isMapEntry (DescriptorProto.getOptions n)))
       (DescriptorProto.getNestedTypeList m))
    (DescriptorProto.getEnumTypeList m) (DescriptorProto.getOneofDeclList m)
    (DescriptorProto.getExtensionList m).

(** The condition under which the specification gives a singular member
    the optional marker. *)
Definition optionalWhen (fd : FileDescriptorProto.t) (field : Field) : Prop :=
  (FieldDescriptorProto.getType field = MESSAGE_TYPE
   ∧ (isProto2 fd = false ∨ FieldDescriptorProto.getLabel field = LABEL_OPTIONAL))
  ∨ (FieldDescriptorProto.getType field ≠ MESSAGE_TYPE ∧ isProto2 fd = true).

(** The fields printMessage goes through when it prints [m]: the fields of
    [m] and of its nested messages, as long as the message that holds them
    is not a map entry. *)
Inductive examined : DescriptorProto.t → Field → Prop :=
  | examined_field m f :
      isMapEntry (DescriptorProto.getOptions m) = false →
      f ∈ DescriptorProto.getFieldList m →
      examined m f
  | examined_nested m n f :
      isMapEntry (DescriptorProto.getOptions m) = false →
      n ∈ DescriptorProto.getNestedTypeList m →
      examined n f →
      examined m f.

(** A message- or enum-typed field whose full type name, without the
    leading dot, has no entry in the export map. *)
Definition missingExport (em : ExportMap) (field : Field) : Prop :=
  (FieldDescriptorProto.getType field = MESSAGE_TYPE
   ∧ getMessage em (slice1 (FieldDescriptorProto.getTypeName field)) = None)
  ∨ (FieldDescriptorProto.getType field = ENUM_TYPE
     ∧ getEnum em (slice1 (FieldDescriptorProto.getTypeName field)) = None).

End Vocabulary.

Section ServiceVocabulary.
Context `{Imported}.

(** The text [CodePrinter.printLn] appends at depth [depth] to a buffer
    whose own indentation is [indentStr]. *)
Definition codeLine (indentStr : string) (depth : Z) (line : string) : string :=
  indentStr +:+ repeatString (generateIndent 1) (Z.to_nat depth) +:+ line +:+ nl.

(** The outgoing envelope of the specification: request id, method
    [Service.Method], the payload, and the protocol version tag. *)
Definition outgoingEnvelope (service method params : string) : string :=
  "{" +:+ quoted "id" +:+ ": " +:+ quoted "1" +:+ ", "
    +:+ quoted "method" +:+ ": " +:+ quoted (service +:+ "." +:+ method) +:+ ", "
    +:+ quoted "params" +:+ ": " +:+ params +:+ ", "
    +:+ quoted "jsonrpc" +:+ ": " +:+ quoted "2.0" +:+ "}".

(** The unary stub [id(requestMessage, options?)] of method [method] of
    service [service], at depth [d]. *)
Definition unaryStub (i : string) (d : Z) (id service method req resp : string) : string :=
  codeLine i d (id +:+ "(")
  +:+ codeLine i (d + 1) ("requestMessage: " +:+ req +:+ ",")
  +:+ codeLine i (d + 1)
        ("options?: {[key: string]: string}): Observable<" +:+ resp +:+ "> {")
  +:+ codeLine i (d + 1)
        ("let rpcRequest = <JsonRPCRequest>"
           +:+ outgoingEnvelope service method "requestMessage" +:+ ";")
  +:+ codeLine i (d + 1)
        ("return this.call<" +:+ resp
           +:+ ">(`${this.serviceHost}/rpc`, rpcRequest, options);")
  +:+ codeLine i d "}"
  +:+ nl.

(** The batch stub [idBatch(requestMessages[], options?)]. *)
Definition batchStub (i : string) (d : Z) (id service method req resp : string) : string :=
  codeLine i d (id +:+ "Batch(")
  +:+ codeLine i (d + 1) ("requestMessages: " +:+ req +:+ "[],")
  +:+ codeLine i (d + 1)
        ("options?: {[key: string]: string}): Observable<" +:+ resp +:+ "[]> {")
  +:+ codeLine i (d + 1)
        ("let rpcRequests = requestMessages.map((r) => {return <JsonRPCRequest>"
           +:+ outgoingEnvelope service method "r" +:+ ";});")
  +:+ codeLine i (d + 1)
        ("return this.callBatch<" +:+ resp
           +:+ "[]>(`${this.serviceHost}/rpc`, rpcRequests, options);")
  +:+ codeLine i d "}"
  +:+ nl.

Definition nonStreaming (method : RPCMethodDescriptor.t) : bool :=
  negb (RPCMethodDescriptor.requestStream method)
  && negb (RPCMethodDescriptor.responseStream method).

(** The two stubs of a method, inside the Client class. *)
Definition stubsOf (i : string) (service : RPCDescriptor) (method : RPCMethodDescriptor.t)
    : string :=
  unaryStub i 2 (RPCMethodDescriptor.functionName method) (name service)
    (RPCMethodDescriptor.nameAsPascalCase method)
    (RPCMethodDescriptor.requestType method) (RPCMethodDescriptor.responseType method)
  +:+ batchStub i 2 (RPCMethodDescriptor.functionName method) (name service)
        (RPCMethodDescriptor.nameAsPascalCase method)
        (RPCMethodDescriptor.requestType method) (RPCMethodDescriptor.responseType method).

(** An empty buffer with indentation [i]. *)
Definition emptyPrinter (i : string) : Printer.t :=
  {| Printer.indentStr := i; Printer.output := "" |}.

(** The opening of the Client class with its constructor and call helpers. *)
Definition clientHead (i : string) : string :=
  Printer.output (CodePrinter.printer (printClientHead (CodePrinter.new 1 (emptyPrinter i)))).

(** The Client class of a service whose method descriptors are [ms]: the
    head, the two stubs of every method that does not stream, in order,
    and the closing brace. *)
Definition clientClass (i : string) (service : RPCDescriptor)
    (ms : list RPCMethodDescriptor.t) : string :=
  clientHead i
  +:+ concatStrings (map (stubsOf i service) (List.filter nonStreaming ms))
  +:+ codeLine i 1 "}".

(** The type alias of a method, at depth [d]. *)
Definition methodAlias (i : string) (d : Z) (m : RPCMethodDescriptor.t) : string :=
  codeLine i d ("type " +:+ RPCMethodDescriptor.serviceName m
                  +:+ RPCMethodDescriptor.nameAsPascalCase m +:+ " = {")
  +:+ codeLine i (d + 1) "readonly methodName: string;"
  +:+ codeLine i (d + 1)
        ("readonly service: typeof " +:+ RPCMethodDescriptor.serviceName m +:+ ";")
  +:+ codeLine i (d + 1)
        ("readonly requestType: typeof " +:+ RPCMethodDescriptor.requestType m +:+ ";")
  +:+ codeLine i (d + 1)
        ("readonly responseType: typeof " +:+ RPCMethodDescriptor.responseType m +:+ ";")
  +:+ codeLine i d "};"
  +:+ nl.

(** The static member of a method in the class of its service. *)
Definition methodMember (i : string) (d : Z) (m : RPCMethodDescriptor.t) : string :=
  codeLine i d ("static readonly " +:+ RPCMethodDescriptor.nameAsPascalCase m +:+ ": "
                  +:+ RPCMethodDescriptor.serviceName m
                  +:+ RPCMethodDescriptor.nameAsPascalCase m +:+ ";").

(** The aliases of all methods of a service, then its class with one
    static member for each. *)
Definition serviceTypesText (i : string) (d : Z) (service : RPCDescriptor)
    (ms : list RPCMethodDescriptor.t) : string :=
  concatStrings (map (methodAlias i d) ms)
  +:+ codeLine i d ("class " +:+ name service +:+ " {")
  +:+ codeLine i (d + 1) "static readonly serviceName: string;"
  +:+ concatStrings (map (methodMember i (d + 1)) ms)
  +:+ codeLine i d "}"
  +:+ nl.

(** The two envelope types, at depth [d]. *)
Definition envelopeTypesText (i : string) (d : Z) : string :=
  codeLine i d "class JsonRPCRequest {"
  +:+ codeLine i (d + 1) "public jsonrpc: string;"
  +:+ codeLine i (d + 1) "public id: string;"
  +:+ codeLine i (d + 1) "public method: string;"
  +:+ codeLine i (d + 1) "public params: any;"
  +:+ codeLine i d "}"
  +:+ nl
  +:+ codeLine i d "type JsonRPCResponse = {"
  +:+ codeLine i (d + 1) "readonly result: any;"
  +:+ codeLine i (d + 1) "readonly id: string;"
  +:+ codeLine i (d + 1) "readonly jsonrpc: string;"
  +:+ codeLine i d "}"
  +:+ nl.

(** The opening of the Client class, line by line: the host member, the
    constructor and the two call helpers. *)
Definition clientHeadText (i : string) : string :=
  codeLine i 1 "export class Client {"
  +:+ codeLine i 2 "private serviceHost: string;"
  +:+ nl
  +:+ codeLine i 2 "constructor(serviceHost: string, private http: HttpClient) {"
  +:+ codeLine i 3 "this.serviceHost = serviceHost;"
  +:+ codeLine i 2 "}"
  +:+ nl
  +:+ codeLine i 2
        "call<T>(url: string, request: any, options?: {[key: string]: string}): Observable<T> {"
  +:+ codeLine i 3
        "return this.http.post<JsonRPCResponse>(url, request, options).pipe(map(response => { return response.result; }), catchError(error => { return throwError(error); }));"
  +:+ codeLine i 2 "}"
  +:+ nl
  +:+ codeLine i 2
        "callBatch<T>(url: string, request: any, options?: {[key: string]: string}): Observable<T> {"
  +:+ codeLine i 3 "// @ts-ignore"
  +:+ codeLine i 3
        "return this.http.post<JsonRPCResponse[]>(url, request, options).pipe(map(response => { return response.map((r) => { return <T>r.result; }) }), catchError(error => { return throwError(error); }));"
  +:+ codeLine i 2 "}"
  +:+ nl.

(** The Client class of a service, line by line, followed by the empty
    line the generator puts after it. *)
Definition clientClassText (i : string) (service : RPCDescriptor)
    (ms : list RPCMethodDescriptor.t) : string :=
  clientHeadText i
  +:+ concatStrings (map (stubsOf i service) (List.filter nonStreaming ms))
  +:+ codeLine i 1 "}"
  +:+ nl.

(** The printer [cp] after [t] was appended to its buffer and its depth
    became [d]. *)
Definition emit (t : string) (d : Z) (cp : CodePrinter.t) : CodePrinter.t :=
  {| CodePrinter.depth := d; CodePrinter.printer := Printer.print t (CodePrinter.printer cp) |}.

(** The two header comment lines and the empty line after them. *)
Definition headerText (fd : FileDescriptorProto.t) : string :=
  "// package: " +:+ FileDescriptorProto.getPackage fd +:+ nl
  +:+ "// file: " +:+ FileDescriptorProto.getName fd +:+ nl
  +:+ nl.

(** The import lines of an import list, then the three fixed imports of
    the transport library and an empty line. *)
Definition importsText (importList : list ImportDescriptor.t) : string :=
  concatStrings
    (map (λ importDescriptor,
            "import * as " +:+ ImportDescriptor.namespace importDescriptor +:+ " from "
              +:+ quoted (ImportDescriptor.path importDescriptor) +:+ ";" +:+ nl)
       importList)
  +:+ "import {HttpClient} from " +:+ quoted "@angular/common/http" +:+ ";" +:+ nl
  +:+ "import {Observable, throwError} from " +:+ quoted "rxjs" +:+ ";" +:+ nl
  +:+ "import {catchError, map} from " +:+ quoted "rxjs/operators" +:+ ";" +:+ nl
  +:+ nl.

(** The service body of a file: the envelope types, the type aliases and
    the class of every service, then the Client class of every service,
    printed one level deep. *)
Definition serviceBody (sd : RPCServiceDescriptor) : result string :=
  printer ← forEach printServiceTypes (services sd)
              (printEnvelopeTypes (CodePrinter.new 1 (emptyPrinter "")));
  printer ← forEach printServiceClient (services sd) printer;
  Ok (Printer.output (CodePrinter.printer printer)).

(** The namespace of a type expression: what stands before its first dot. *)
Fixpoint typeNamespace (t : string) : option string :=
  match t with
  | EmptyString => None
  | String c r => if decide (c = "."%char) then Some "" else String c <$> typeNamespace r
  end.

(** An identifier without a dot. *)
Definition noDot (s : string) : Prop := typeNamespace s = None.

(** The method descriptors of a file, service after service. *)
Definition allMethods (fd : FileDescriptorProto.t) : list MethodDescriptorProto.t :=
  concat (map ServiceDescriptorProto.getMethodList (FileDescriptorProto.getServiceList fd)).

(** Some method has a request or response type in namespace [ns]. *)
Definition referencesNamespace (cts : list CallingTypes.t) (ns : string) : Prop :=
  Exists (λ ct, typeNamespace (CallingTypes.requestType ct) = Some ns
                ∨ typeNamespace (CallingTypes.responseType ct) = Some ns) cts.

#[global] Instance referencesNamespace_dec cts ns : Decision (referencesNamespace cts ns).
Proof. unfold referencesNamespace. apply _. Defined.

End ServiceVocabulary.

(** ** src/service/jsonrpc.ts: the entry point *)

(** [CodeGeneratorResponse.File], with the two members the entry point
    sets. *)
Module File.
Record t : Type := { getName : string; getContent : string }.
End File.

Section EntryPoint.
Context `{Imported}.

Definition createFile (output filename : string) : File.t :=
  {| File.getName := filename; File.getContent := output |}.

(** Lines 13-17. The content is generated before the file is created. *)
Definition generateJSONRPCService (filename : string) (descriptor : FileDescriptorProto.t)
    (exportMap : ExportMap) : result (list File.t) :=
  output ← generateTypescriptDefinition descriptor exportMap;
  Ok [createFile output (filename +:+ "_service.ts")].

End EntryPoint.

(** ** Vocabulary of the further statements *)

Section FurtherVocabulary.
Context `{Imported}.

Local Abbreviation Field := FieldDescriptorProto.t.

(** The text the field callback appends for [field] to a buffer whose
    indentation is [i]. *)
Definition memberText (fn : string) (em : ExportMap) (fd : FileDescriptorProto.t)
    (i : string) (field : Field) : result string :=
  st ← printField fn em fd (emptyPrinter i, ∅) field;
  Ok (Printer.output st.1).

(** The fields of a oneof index, in declaration order. *)
Definition oneOfGroup (fields : list Field) (index : Z) : list Field :=
  filter (λ f, FieldDescriptorProto.getOneofIndex f = Some index) fields.

(** The sections of a printed message: the opening line, the members, the
    nested messages, the enums, the oneof declarations, the extensions and
    the closing line. *)
Definition messageText (m : DescriptorProto.t) (lvl : nat)
    (members nestedTexts extensionTexts : list string) : string :=
  generateIndent lvl +:+ "export class " +:+ DescriptorProto.getName m +:+ " {" +:+ nl
  +:+ concatStrings members
  +:+ concatStrings nestedTexts
  +:+ concatStrings
        (map (λ e, printEnum e (lvl + 1)%nat) (DescriptorProto.getEnumTypeList m))
  +:+ concatStrings
        (imap (λ index d,
                 printOneOfDecl d
                   (oneOfGroup (DescriptorProto.getFieldList m) (Z.of_nat index))
                   (lvl + 1)%nat)
           (DescriptorProto.getOneofDeclList m))
  +:+ concatStrings extensionTexts
  +:+ generateIndent lvl +:+ "}" +:+ nl.

(** The test of [isUsed] on the calling types of one method. *)
Definition inNamespace (ns : string) (ct : CallingTypes.t) : bool :=
  (indexOf (CallingTypes.requestType ct) (ns +:+ ".") =? 0)
  || (indexOf (CallingTypes.responseType ct) (ns +:+ ".") =? 0).

End FurtherVocabulary.

(** ** Further sample inputs *)

Module Cases.

Definition oneofField (n : string) (index : Z) : FieldDescriptorProto.t :=
  {| FieldDescriptorProto.getName := n;
     FieldDescriptorProto.getTypeName := "";
     FieldDescriptorProto.getType := TYPE_STRING;
     FieldDescriptorProto.getLabel := LABEL_OPTIONAL;
     FieldDescriptorProto.getOneofIndex := Some index;
     FieldDescriptorProto.getOptions := None |}.

Definition email : FieldDescriptorProto.t := oneofField "email" 0.
Definition phone : FieldDescriptorProto.t := oneofField "phone" 0.
Definition nick : FieldDescriptorProto.t := oneofField "nick" 1.

(** Two oneof groups with a plain field between their members. *)
Definition contactFields : list FieldDescriptorProto.t :=
  [ email; nick; Sample.field "id" TYPE_INT64 "" LABEL_OPTIONAL; phone ].

Definition address : DescriptorProto.t := Sample.message "Address" None [ Sample.names ] [].

Definition contact : DescriptorProto.t :=
  DescriptorProto.Build "Contact" None contactFields [ Sample.tagsEntry; address ]
    [ {| enumName := "Kind"; enumValues := [] |} ]
    [ {| oneofName := "reach" |}; {| oneofName := "alias" |} ]
    [].

(** What the fields and the nested messages of [contact] print. *)
Definition contactMembers : list string :=
  [ "  email: string;" +:+ nl; "  nick: string;" +:+ nl;
    "  id: number;" +:+ nl; "  phone: string;" +:+ nl ].

Definition contactNested : list string :=
  [ ""; "  export class Address {" +:+ nl +:+ "    names: Array<string>;" +:+ nl
          +:+ "  }" +:+ nl ].

(** A scalar field with a jstype override. *)
Definition counter (o : option JSType) : FieldDescriptorProto.t :=
  {| FieldDescriptorProto.getName := "counter";
     FieldDescriptorProto.getTypeName := "";
     FieldDescriptorProto.getType := TYPE_INT64;
     FieldDescriptorProto.getLabel := LABEL_REPEATED;
     FieldDescriptorProto.getOneofIndex := None;
     FieldDescriptorProto.getOptions := Some {| getJstype := o |} |}.

(** A map entry whose key and value types were not recorded. *)
Definition bareEntry : ExportMessageEntry :=
  Sample.entry "demo" "demo/user.proto" Sample.mapEntryOptions None.

Definition exportMap : ExportMap :=
  {| messageMap := <["demo.Bare" := bareEntry]> (messageMap Sample.exportMap);
     enumMap := ∅ |}.

Definition bare : FieldDescriptorProto.t :=
  Sample.field "bare" TYPE_MESSAGE ".demo.Bare" LABEL_REPEATED.

(** A method without a name, and methods whose types are in no file. *)
Definition nameless : MethodDescriptorProto.t :=
  Sample.method "" ".demo.GetUserRequest" ".demo.GetUserResponse" false false.

Definition lost : MethodDescriptorProto.t :=
  Sample.method "Lost" ".demo.Missing" ".demo.GetUserResponse" true false.

Definition service (n : string) (ms : list MethodDescriptorProto.t) : ServiceDescriptorProto.t :=
  {| ServiceDescriptorProto.getName := n; ServiceDescriptorProto.getMethodList := ms |}.

Definition rpcOf (sv : ServiceDescriptorProto.t) : RPCDescriptor :=
  {| protoService := sv; rpcExportMap := Sample.exportMap |}.

Definition pingService : ServiceDescriptorProto.t :=
  service "Health"
    [ Sample.method "Ping" ".google.protobuf.Empty" ".google.protobuf.Empty" false false ].

Definition ping : MethodDescriptorProto.t :=
  Sample.method "Ping" ".google.protobuf.Empty" ".google.protobuf.Empty" false false.

(** A resolvable method followed by one that is not, and a file whose only
    method is not resolvable. *)
Definition mixedFile : FileDescriptorProto.t := Sample.file [ service "Health" [ ping; lost ] ].

Definition lostFile : FileDescriptorProto.t := Sample.file [ service "Broken" [ lost ] ].

(** A message whose second field has an unknown type and whose third field
    is a map without recorded key and value types. *)
Definition twoFailures : DescriptorProto.t :=
  Sample.message "Two" None [ Sample.names; Sample.dangling; bare ] [].

Definition holder : DescriptorProto.t := Sample.message "Holder" None [ bare ] [].

Definition pingMethods : list RPCMethodDescriptor.t :=
  [ {| RPCMethodDescriptor.nameAsPascalCase := "Ping";
       RPCMethodDescriptor.nameAsCamelCase := "ping";
       RPCMethodDescriptor.functionName := "ping";
       RPCMethodDescriptor.serviceName := "Health";
       RPCMethodDescriptor.requestStream := false;
       RPCMethodDescriptor.responseStream := false;
       RPCMethodDescriptor.requestType := "google_protobuf_empty_pb.Empty";
       RPCMethodDescriptor.responseType := "google_protobuf_empty_pb.Empty" |} ].

(** A file that declares two services. *)
Definition twoServices : FileDescriptorProto.t :=
  Sample.file [ Sample.userService; pingService ].

End Cases.

(** * Properties *)

(** ** Strings and the array combinators *)

Lemma append_cons (x : ascii) (a b : string) : String x a +:+ b = String x (a +:+ b).
Proof. reflexivity. Qed.

Lemma append_assoc (a b c : string) : (a +:+ b) +:+ c = a +:+ (b +:+ c).
Proof. induction a as [|x a IH]; [done|]. by rewrite !append_cons, IH. Qed.

Lemma append_nil_r (a : string) : a +:+ "" = a.
Proof. induction a as [|x a IH]; [done|]. by rewrite append_cons, IH. Qed.

Lemma append_nil_l (a : string) : "" +:+ a = a.
Proof. reflexivity. Qed.

Lemma concatStrings_cons (x : string) (l : list string) :
  concatStrings (x :: l) = x +:+ concatStrings l.
Proof. reflexivity. Qed.

(** Texts are compared with every concatenation nested to the right. *)
Create Rewrite HintDb text.
#[global] Hint Rewrite append_assoc append_nil_l append_nil_r : text.

Lemma forEach_app {A S : Type} (f : S → A → result S) (l1 l2 : list A) (s : S) :
  forEach f (l1 ++ l2) s = forEach f l1 s ≫= forEach f l2.
Proof.
  revert s. induction l1 as [|a l1 IH]; intros s; [done|].
  cbn. destruct (f s a) as [s'|e]; [apply IH|done].
Qed.

Lemma forEach_throws {A S : Type} (f : S → A → result S) (l : list A) (a : A) :
  a ∈ l → (∀ s, throws (f s a)) → ∀ s, throws (forEach f l s).
Proof.
  intros Hin Hf. induction l as [|b l IH]; intros s.
  - by apply not_elem_of_nil in Hin.
  - cbn. apply elem_of_cons in Hin as [->|Hin].
    + destruct (Hf s) as [e ->]. by exists e.
    + destruct (f s b) as [s'|e]; [by apply IH|by exists e].
Qed.

Lemma forEach_invariant {A S : Type} (f : S → A → result S) (P : S → Prop) (l : list A) :
  (∀ s a s', a ∈ l → P s → f s a = Ok s' → P s') →
  ∀ s s', P s → forEach f l s = Ok s' → P s'.
Proof.
  induction l as [|a l IH]; intros Hstep s s' Hs Hrun; cbn in Hrun.
  - by simplify_eq.
  - destruct (f s a) as [s1|e] eqn:Hf; [|done].
    apply (IH (λ s0 b s1' Hb, Hstep s0 b s1' (list_elem_of_further _ _ _ Hb)) s1 s');
      [|done].
    apply (Hstep s a s1); [apply list_elem_of_here|done..].
Qed.

Lemma forEach_no_exn {A S : Type} (f : S → A → result S) (e : exn) (l : list A) :
  (∀ s a, a ∈ l → f s a ≠ Throw e) → ∀ s, forEach f l s ≠ Throw e.
Proof.
  induction l as [|a l IH]; intros Hstep s; cbn; [done|].
  destruct (f s a) as [s1|e'] eqn:Hf.
  - apply IH. intros s0 b Hb. apply Hstep. by apply list_elem_of_further.
  - rewrite <- Hf. apply Hstep. apply list_elem_of_here.
Qed.

(** ** The printer only appends *)

Lemma extends_refl (p : Printer.t) : extends p p.
Proof. split; [done|]. exists "". by rewrite append_nil_r. Qed.

Lemma extends_trans (p q r : Printer.t) : extends p q → extends q r → extends p r.
Proof.
  intros [Hi [t Ht]] [Hi' [t' Ht']]. split; [congruence|].
  exists (t +:+ t'). by rewrite Ht', Ht, append_assoc.
Qed.

Lemma extends_print (str : string) (p : Printer.t) : extends p (Printer.print str p).
Proof. split; [done|]. by exists str. Qed.

Lemma extends_printLn (str : string) (p : Printer.t) : extends p (Printer.printLn str p).
Proof. split; [done|]. by eexists. Qed.

Lemma extends_foldl_print {A : Type} (g : A → string) (l : list A) (p : Printer.t) :
  extends p (foldl (λ q a, Printer.print (g a) q) p l).
Proof.
  revert p. induction l as [|a l IH]; intros p; cbn; [apply extends_refl|].
  eapply extends_trans; [apply extends_print|apply IH].
Qed.

Section MessageProperties.
Context `{Imported}.

Local Abbreviation Field := FieldDescriptorProto.t.

Lemma extends_printIndentedLn (str : string) (p : Printer.t) :
  extends p (Printer.printIndentedLn str p).
Proof. split; [done|]. by eexists. Qed.

Lemma extends_printMember fd (field : Field) (t : string) (p : Printer.t) :
  extends p (printMember fd field t p).
Proof. unfold printMember. repeat case_decide; apply extends_printIndentedLn. Qed.

Lemma extends_printField fn em fd st (field : Field) st' :
  printField fn em fd st field = Ok st' → extends st.1 st'.1.
Proof.
  unfold printField. destruct (resolveField fn em field) as [[k v|t]|e]; cbn; [| |done].
  - intros [= <-]. apply extends_printIndentedLn.
  - intros [= <-]. apply extends_printMember.
Qed.

Lemma extends_fields fn em fd (l : list Field) st st' :
  forEach (printField fn em fd) l st = Ok st' → extends st.1 st'.1.
Proof.
  intros Hrun.
  apply (forEach_invariant (printField fn em fd) (λ s, extends st.1 s.1) l) with (s := st);
    [|apply extends_refl|done].
  intros s a s' _ Hs Hstep. eapply extends_trans; [done|]. by eapply extends_printField.
Qed.

Lemma extends_printNested (out : string) (p : Printer.t) : extends p (printNested out p).
Proof. unfold printNested. case_decide; [apply extends_refl|apply extends_print]. Qed.

Lemma extends_printEnums (l : list EnumDescriptorProto) (lvl : nat) (p : Printer.t) :
  extends p (printEnums l lvl p).
Proof. apply (extends_foldl_print (λ e, printEnum e (lvl + 1)%nat)). Qed.

Lemma extends_printOneOfs (l : list OneofDescriptorProto) g (lvl : nat) (p : Printer.t) :
  extends p (printOneOfs l g lvl p).
Proof. apply (extends_foldl_print (λ d : string, d)). Qed.

Lemma extends_printExtensions fn em (l : list Field) (lvl : nat) (p p' : Printer.t) :
  printExtensions fn em l lvl p = Ok p' → extends p p'.
Proof.
  intros Hrun. unfold printExtensions in Hrun.
  eapply (forEach_invariant _ (λ q, extends p q)); [|apply extends_refl|exact Hrun].
  intros s a s' _ Hs Hstep. cbn in Hstep.
  destruct (printExtension fn em a (lvl + 1)%nat); cbn in Hstep; [done|].
  simplify_eq. eapply extends_trans; [done|apply extends_print].
Qed.

Lemma printMessage_unfold fn em m lvl fd :
  printMessage fn em m lvl fd =
    if isMapEntry (DescriptorProto.getOptions m) then Ok ""
    else printMessageBody fn em m lvl fd.
Proof. by destruct m. Qed.

Lemma extends_nested fn em fd (lvl : nat) (l : list DescriptorProto.t) (p p' : Printer.t) :
  forEach (λ q nested,
             msgOutput ← printMessage fn em nested lvl fd; Ok (printNested msgOutput q))
    l p = Ok p' →
  extends p p'.
Proof.
  intros Hrun.
  eapply (forEach_invariant _ (λ q, extends p q)); [|apply extends_refl|exact Hrun].
  intros s a s' _ Hs Hstep. cbn in Hstep.
  destruct (printMessage fn em a lvl fd); cbn in Hstep; [|done].
  simplify_eq. eapply extends_trans; [done|apply extends_printNested].
Qed.

(** What is printed after the fields only adds to the text. *)
Lemma printMessageBody_extends fn em m lvl fd st out :
  (st ≫= λ st,
     printer ← forEach (λ p nested,
                  msgOutput ← printMessage fn em nested (lvl + 1)%nat fd;
                  Ok (printNested msgOutput p))
               (DescriptorProto.getNestedTypeList m) st.1;
     printer ← printExtensions fn em (DescriptorProto.getExtensionList m) lvl
                 (printOneOfs (DescriptorProto.getOneofDeclList m) st.2 lvl
                    (printEnums (DescriptorProto.getEnumTypeList m) lvl printer));
     Ok (Printer.getOutput (Printer.printLn "}" printer))) = Ok out →
  ∃ st0 t, st = Ok st0 ∧ out = Printer.output st0.1 +:+ t.
Proof.
  destruct st as [st0|e]; cbn; [|done]. intros Hout.
  destruct (forEach _ (DescriptorProto.getNestedTypeList m) st0.1) as [p1|e] eqn:Hn;
    cbn in Hout; [|done].
  destruct (printExtensions _ _ _ _ _) as [p2|e] eqn:Hx; cbn in Hout; [|done].
  simplify_eq. exists st0.
  assert (extends st0.1 (Printer.printLn "}" p2)) as [_ [t Ht]]; [|by exists t].
  eapply extends_trans; [by eapply extends_nested|].
  eapply extends_trans; [apply extends_printEnums|].
  eapply extends_trans; [apply extends_printOneOfs|].
  eapply extends_trans; [by eapply extends_printExtensions|apply extends_printLn].
Qed.

Lemma member_declared fn em fd m lvl (field : Field) (line : string) :
  isMapEntry (DescriptorProto.getOptions m) = false →
  field ∈ DescriptorProto.getFieldList m →
  (∀ st, ∃ g, printField fn em fd st field = Ok (Printer.printIndentedLn line st.1, g)) →
  declares fn em fd m lvl line.
Proof.
  intros Hme Hin Hstep out Hout.
  rewrite printMessage_unfold, Hme in Hout. unfold printMessageBody in Hout.
  apply printMessageBody_extends in Hout as (st3 & t & Hfields & ->).
  apply list_elem_of_split in Hin as (pre & post & Hl).
  rewrite Hl, forEach_app in Hfields.
  destruct (forEach _ pre _) as [st1|e] eqn:Hpre; cbn in Hfields; [|done].
  destruct (Hstep st1) as [g Hf]. rewrite Hf in Hfields.
  apply extends_fields in Hpre as [Hi _]. apply extends_fields in Hfields as [_ [t' Ht']].
  cbn in Hi, Ht'. exists (Printer.output st1.1), (t' +:+ t).
  rewrite Ht', Hi. unfold Printer.new; cbn. by rewrite !append_assoc.
Qed.

(** ** The two phases of the field callback *)

Lemma printField_IsMap fn em fd (field : Field) (K V : string) :
  resolveField fn em field = Ok (IsMap K V) →
  ∀ st, printField fn em fd st field =
          Ok (Printer.printIndentedLn
                (FieldDescriptorProto.getName field +:+ ": Map<" +:+ K +:+ ", " +:+ V +:+ ">;")
                st.1,
              addToOneOfGroup field st.2).
Proof. intros Hr st. unfold printField. by rewrite Hr. Qed.

Lemma printField_ExportType fn em fd (field : Field) (T : string) :
  resolveField fn em field = Ok (ExportType T) →
  ∀ st, printField fn em fd st field =
          Ok (printMember fd field T st.1, addToOneOfGroup field st.2).
Proof. intros Hr st. unfold printField. by rewrite Hr. Qed.

Lemma resolveField_map_entry fn em (field : Field) e o (K V : string) :
  FieldDescriptorProto.getType field = MESSAGE_TYPE →
  getMessage em (slice1 (FieldDescriptorProto.getTypeName field)) = Some e →
  isMapEntry (messageOptions e) = true →
  mapFieldOptions e = Some o →
  getFieldType (key o).1 (key o).2 fn em = inr K →
  getFieldType (value o).1 (value o).2 fn em = inr V →
  resolveField fn em field =
    Ok (IsMap K (if decide ((value o).1 = BYTES_TYPE) then "Uint8Array | string" else V)).
Proof.
  intros Ht He Hme Ho HK HV. unfold resolveField.
  rewrite decide_True by done. by rewrite He, Hme, Ho, HK, HV.
Qed.

Lemma resolveField_IsMap_inv fn em (field : Field) (K V : string) :
  resolveField fn em field = Ok (IsMap K V) → refersToMapEntry em field.
Proof.
  unfold resolveField, refersToMapEntry. intros Hr.
  destruct (decide (FieldDescriptorProto.getType field = MESSAGE_TYPE)) as [Ht|Ht].
  - split; [done|].
    destruct (getMessage em _) as [e|]; [|done]. exists e. split; [done|].
    destruct (isMapEntry (messageOptions e)); [done|]. by case_decide.
  - repeat case_decide; try done. destruct (getEnum em _); [|done]. by case_decide.
Qed.

Lemma resolveField_ExportType_inv fn em (field : Field) (T : string) :
  resolveField fn em field = Ok (ExportType T) → ¬ refersToMapEntry em field.
Proof.
  unfold resolveField. intros Hr (Ht & e & He & Hme).
  rewrite decide_True, He, Hme in Hr by done.
  destruct (mapFieldOptions e) as [o|]; [|done]. cbn in Hr.
  destruct (getFieldType (key o).1 _ _ _); [done|]. cbn in Hr.
  by destruct (getFieldType (value o).1 _ _ _).
Qed.

Lemma resolveField_bytes fn em (field : Field) :
  FieldDescriptorProto.getType field = BYTES_TYPE →
  resolveField fn em field = Ok (ExportType (scalarExportType field)).
Proof. intros Ht. unfold resolveField. by rewrite Ht. Qed.

Lemma nested_map_entries_skipped fn em fd (lvl : nat) (l : list DescriptorProto.t)
    (p : Printer.t) :
  forEach (λ q nested,
             msgOutput ← printMessage fn em nested lvl fd; Ok (printNested msgOutput q))
    (List.filter (λ n, negb (isMapEntry (DescriptorProto.getOptions n))) l) p
  = forEach (λ q nested,
               msgOutput ← printMessage fn em nested lvl fd; Ok (printNested msgOutput q))
      l p.
Proof.
  revert p. induction l as [|n l IH]; intros p; [done|].
  cbn [List.filter]. destruct (isMapEntry (DescriptorProto.getOptions n)) eqn:Hme; cbn.
  - rewrite (printMessage_unfold fn em n), Hme. cbn. apply IH.
  - destruct (printMessage fn em n lvl fd); cbn; [apply IH|done].
Qed.

(** ** Map entries *)

(** C1. A message flagged as a map entry prints as the empty string, so
    that a message prints the same with or without the map entries among
    its nested types; and a field whose type the export map records as a
    map entry, with key and value types that resolve to [K] and [V],
    declares the member [name: Map<K, V>;], where [V] is replaced by the
    byte union when the recorded value type is the byte-sequence type. *)
Theorem map_entry_never_standalone_fields_are_maps :
  (∀ fn em m lvl fd,
     isMapEntry (DescriptorProto.getOptions m) = true →
     printMessage fn em m lvl fd = Ok "")
  ∧ (∀ fn em m lvl fd,
       printMessage fn em m lvl fd = printMessage fn em (withoutNestedMapEntries m) lvl fd)
  ∧ (∀ fn em fd (field : Field) e o (K V : string),
       FieldDescriptorProto.getType field = MESSAGE_TYPE →
       getMessage em (slice1 (FieldDescriptorProto.getTypeName field)) = Some e →
       isMapEntry (messageOptions e) = true →
       mapFieldOptions e = Some o →
       getFieldType (key o).1 (key o).2 fn em = inr K →
       getFieldType (value o).1 (value o).2 fn em = inr V →
       let V' := if decide ((value o).1 = BYTES_TYPE) then "Uint8Array | string" else V in
       let line := FieldDescriptorProto.getName field
                     +:+ ": Map<" +:+ K +:+ ", " +:+ V' +:+ ">;" in
       (∀ st, printField fn em fd st field =
                Ok (Printer.printIndentedLn line st.1, addToOneOfGroup field st.2))
       ∧ (∀ m lvl,
            isMapEntry (DescriptorProto.getOptions m) = false →
            field ∈ DescriptorProto.getFieldList m →
            declares fn em fd m lvl line)).
Proof.
  split; [|split].
  - intros fn em m lvl fd Hme. by rewrite printMessage_unfold, Hme.
  - intros fn em m lvl fd. rewrite !printMessage_unfold. destruct m as [n o fs ns es os xs].
    cbn. destruct (isMapEntry o); [done|]. unfold printMessageBody; cbn.
    destruct (forEach _ fs _) as [st|e]; cbn; [|done].
    by rewrite nested_map_entries_skipped.
  - intros fn em fd field e o K V Ht He Hme Ho HK HV V' line.
    pose proof (resolveField_map_entry fn em field e o K V Ht He Hme Ho HK HV) as Hr.
    pose proof (printField_IsMap fn em fd field _ _ Hr) as Hp.
    split; [exact Hp|].
    intros m lvl Hm Hin. apply (member_declared fn em fd m lvl field); [done..|].
    intros st. eexists. apply Hp.
Qed.

(** ** Byte-sequence fields *)

(** C5. A field of the byte-sequence type declares the member
    [name: Uint8Array | string;] when it is singular and
    [name: Array<Uint8Array | string>;] when it is repeated, whatever its
    options (and so whatever its jstype override) are. *)
Theorem bytes_field_is_union :
  ∀ fn em fd (field : Field),
    FieldDescriptorProto.getType field = BYTES_TYPE →
    let T := if decide (FieldDescriptorProto.getLabel field = LABEL_REPEATED)
             then "Array<Uint8Array | string>" else "Uint8Array | string" in
    let line := FieldDescriptorProto.getName field +:+ ": " +:+ T +:+ ";" in
    (∀ st, printField fn em fd st field =
             Ok (Printer.printIndentedLn line st.1, addToOneOfGroup field st.2))
    ∧ (∀ m lvl,
         isMapEntry (DescriptorProto.getOptions m) = false →
         field ∈ DescriptorProto.getFieldList m →
         declares fn em fd m lvl line).
Proof.
  intros fn em fd field Ht T line.
  assert (∀ st, printField fn em fd st field =
                  Ok (Printer.printIndentedLn line st.1, addToOneOfGroup field st.2)) as Hp.
  { intros st. rewrite (printField_ExportType fn em fd field _ (resolveField_bytes fn em field Ht)).
    unfold printMember, line, T. rewrite Ht. by case_decide. }
  split; [exact Hp|].
  intros m lvl Hm Hin. apply (member_declared fn em fd m lvl field); [done..|].
  intros st. eexists. apply Hp.
Qed.

(** ** Repeated fields *)

(** C9. A repeated field whose type resolves to a type expression declares
    the member [name: Array<T>;] with [T] its element type; a repeated
    field that resolves to a map declares the bare [name: Map<K, V>;]; and
    a field resolves to a map exactly when its type is a message that the
    export map records as a map entry. *)
Theorem repeated_field_is_array_unless_map :
  ∀ fn em fd (field : Field),
    FieldDescriptorProto.getLabel field = LABEL_REPEATED →
    (∀ T, resolveField fn em field = Ok (ExportType T) →
       let line := FieldDescriptorProto.getName field
                     +:+ ": Array<" +:+ elementType field T +:+ ">;" in
       ¬ refersToMapEntry em field
       ∧ (∀ st, printField fn em fd st field =
                  Ok (Printer.printIndentedLn line st.1, addToOneOfGroup field st.2))
       ∧ (∀ m lvl,
            isMapEntry (DescriptorProto.getOptions m) = false →
            field ∈ DescriptorProto.getFieldList m →
            declares fn em fd m lvl line))
    ∧ (∀ K V, resolveField fn em field = Ok (IsMap K V) →
         let line := FieldDescriptorProto.getName field
                       +:+ ": Map<" +:+ K +:+ ", " +:+ V +:+ ">;" in
         refersToMapEntry em field
         ∧ (∀ st, printField fn em fd st field =
                    Ok (Printer.printIndentedLn line st.1, addToOneOfGroup field st.2))
         ∧ (∀ m lvl,
              isMapEntry (DescriptorProto.getOptions m) = false →
              field ∈ DescriptorProto.getFieldList m →
              declares fn em fd m lvl line)).
Proof.
  intros fn em fd field Hl. split.
  - intros T Hr line. split; [by eapply resolveField_ExportType_inv|].
    assert (∀ st, printField fn em fd st field =
                    Ok (Printer.printIndentedLn line st.1, addToOneOfGroup field st.2)) as Hp.
    { intros st. rewrite (printField_ExportType fn em fd field T Hr).
      unfold printMember, line, elementType. rewrite decide_True by done.
      by case_decide. }
    split; [exact Hp|].
    intros m lvl Hm Hin. apply (member_declared fn em fd m lvl field); [done..|].
    intros st. eexists. apply Hp.
  - intros K V Hr line. split; [by eapply resolveField_IsMap_inv|].
    pose proof (printField_IsMap fn em fd field K V Hr) as Hp.
    split; [exact Hp|].
    intros m lvl Hm Hin. apply (member_declared fn em fd m lvl field); [done..|].
    intros st. eexists. apply Hp.
Qed.

(** ** The optional marker *)

(** A field that is no reference to a map entry and whose export is not
    missing resolves to a type expression. *)
Lemma resolveField_ExportType_intro fn em (field : Field) :
  ¬ refersToMapEntry em field →
  ¬ missingExport em field →
  ∃ T, resolveField fn em field = Ok (ExportType T).
Proof.
  intros Hmap Hmiss. unfold resolveField.
  destruct (decide (FieldDescriptorProto.getType field = MESSAGE_TYPE)) as [Ht|Ht].
  - destruct (getMessage em _) as [e|] eqn:He.
    + destruct (isMapEntry (messageOptions e)) eqn:Hme.
      * destruct Hmap. split; [done|]. by exists e.
      * case_decide; by eexists.
    + destruct Hmiss. by left.
  - destruct (decide (FieldDescriptorProto.getType field = ENUM_TYPE)) as [Hen|Hen].
    + destruct (getEnum em _) as [e|] eqn:He.
      * case_decide; by eexists.
      * destruct Hmiss. by right.
    + by eexists.
Qed.

(** C8. Take a singular field that is not of the byte-sequence type, in a
    schema where the fields typed by a map entry are repeated, as the
    schema compiler makes them. Its member is emitted whenever its export
    is not missing, and every member emitted for it is [name: T;] or
    [name?: T;], with the marker exactly when the field is message-typed
    and the file is not proto2 or the label is optional, or the field is
    not message-typed and the file is proto2. So a required message-typed
    field of a proto2 file and a scalar field of a file that is not proto2
    are emitted without the marker. *)
Theorem singular_member_optional_marker :
  ∀ fn em fd (field : Field),
    FieldDescriptorProto.getLabel field ≠ LABEL_REPEATED →
    FieldDescriptorProto.getType field ≠ BYTES_TYPE →
    (refersToMapEntry em field → FieldDescriptorProto.getLabel field = LABEL_REPEATED) →
    ∃ marker,
      (marker = "?" ∧ optionalWhen fd field ∨ marker = "" ∧ ¬ optionalWhen fd field)
      ∧ (isProto2 fd = true →
         FieldDescriptorProto.getType field = MESSAGE_TYPE →
         FieldDescriptorProto.getLabel field = LABEL_REQUIRED →
         marker = "")
      ∧ (isProto2 fd = false →
         FieldDescriptorProto.getType field ≠ MESSAGE_TYPE →
         marker = "")
      ∧ (¬ missingExport em field → ∃ T, resolveField fn em field = Ok (ExportType T))
      ∧ (∀ st st', printField fn em fd st field = Ok st' →
           ∃ T, resolveField fn em field = Ok (ExportType T)
                ∧ st' = (Printer.printIndentedLn
                           (normaliseFieldObjectName (FieldDescriptorProto.getName field)
                              +:+ marker +:+ ": " +:+ T +:+ ";") st.1,
                         addToOneOfGroup field st.2))
      ∧ (∀ T, resolveField fn em field = Ok (ExportType T) →
           let line := normaliseFieldObjectName (FieldDescriptorProto.getName field)
                         +:+ marker +:+ ": " +:+ T +:+ ";" in
           (∀ st, printField fn em fd st field =
                    Ok (Printer.printIndentedLn line st.1, addToOneOfGroup field st.2))
           ∧ (∀ m lvl,
                isMapEntry (DescriptorProto.getOptions m) = false →
                field ∈ DescriptorProto.getFieldList m →
                declares fn em fd m lvl line)).
Proof.
  intros fn em fd field Hl Hb Hrep.
  assert (¬ refersToMapEntry em field) as Hmap by (intros Hm; by apply Hl, Hrep).
  assert (∀ T, resolveField fn em field = Ok (ExportType T) →
          ∀ st, printField fn em fd st field =
                  Ok (Printer.printIndentedLn
                        (normaliseFieldObjectName (FieldDescriptorProto.getName field)
                           +:+ (if canBeUndefined fd field then "?" else "")
                           +:+ ": " +:+ T +:+ ";") st.1,
                      addToOneOfGroup field st.2)) as Hp.
  { intros T Hr st. rewrite (printField_ExportType fn em fd field T Hr).
    unfold printMember. by rewrite !decide_False by done. }
  exists (if canBeUndefined fd field then "?" else "").
  split; [|split; [|split; [|split; [|split]]]].
  - unfold canBeUndefined, optionalWhen. case_decide as Ht.
    + destruct (isProto2 fd) eqn:Hp2; cbn.
      * case_bool_decide as Ho; [left|right]; intuition congruence.
      * left. intuition congruence.
    + destruct (isProto2 fd) eqn:Hp2; [left|right]; intuition congruence.
  - intros Hp2 Ht Hreq. unfold canBeUndefined. rewrite decide_True, Hp2, Hreq by done.
    reflexivity.
  - intros Hp2 Ht. unfold canBeUndefined. by rewrite decide_False, Hp2 by done.
  - intros Hmiss. by apply resolveField_ExportType_intro.
  - intros st st' Hst.
    destruct (resolveField fn em field) as [[K V|T]|e] eqn:Hr.
    + destruct Hmap. by eapply resolveField_IsMap_inv.
    + exists T. split; [done|]. rewrite (Hp T eq_refl st) in Hst. by injection Hst as <-.
    + unfold printField in Hst. by rewrite Hr in Hst.
  - intros T Hr line. split; [by apply Hp|].
    intros m lvl Hm Hin. apply (member_declared fn em fd m lvl field); [done..|].
    intros st. eexists. by apply Hp.
Qed.

(** ** Missing exports *)

Lemma DescriptorProto_nested_ind (P : DescriptorProto.t → Prop) :
  (∀ n o fs ns es os xs, Forall P ns → P (DescriptorProto.Build n o fs ns es os xs)) →
  ∀ m, P m.
Proof.
  intros Hstep. fix IH 1. intros [n o fs ns es os xs]. apply Hstep.
  induction ns as [|x ns IHns]; constructor; [apply IH|apply IHns].
Qed.

Lemma printField_missing_message fn em fd st (field : Field) :
  FieldDescriptorProto.getType field = MESSAGE_TYPE →
  getMessage em (slice1 (FieldDescriptorProto.getTypeName field)) = None →
  printField fn em fd st field
    = Throw (NoMessageExport (slice1 (FieldDescriptorProto.getTypeName field))).
Proof.
  intros Ht Hm. unfold printField, resolveField. rewrite decide_True by done.
  by rewrite Hm.
Qed.

Lemma printField_missing_enum fn em fd st (field : Field) :
  FieldDescriptorProto.getType field = ENUM_TYPE →
  getEnum em (slice1 (FieldDescriptorProto.getTypeName field)) = None →
  printField fn em fd st field
    = Throw (NoEnumExport (slice1 (FieldDescriptorProto.getTypeName field))).
Proof.
  intros Ht Hm. unfold printField, resolveField. rewrite Ht.
  rewrite decide_False by done. rewrite decide_True by done. by rewrite Hm.
Qed.

Lemma printField_missing_throws fn em fd st (field : Field) :
  missingExport em field → throws (printField fn em fd st field).
Proof.
  intros [[Ht Hm]|[Ht Hm]]; eexists;
    [by apply printField_missing_message|by apply printField_missing_enum].
Qed.

(** A field whose type resolves does not reach either [throw] statement. *)
Lemma printField_resolved fn em fd st (field : Field) (n : string) :
  ¬ missingExport em field →
  printField fn em fd st field ≠ Throw (NoMessageExport n)
  ∧ printField fn em fd st field ≠ Throw (NoEnumExport n).
Proof.
  intros Hres. unfold printField.
  assert (resolveField fn em field ≠ Throw (NoMessageExport n)
          ∧ resolveField fn em field ≠ Throw (NoEnumExport n)) as [H1 H2].
  { unfold resolveField, missingExport in *.
    destruct (decide (FieldDescriptorProto.getType field = MESSAGE_TYPE)) as [Ht|Ht].
    - destruct (getMessage em _) as [e|] eqn:He; [|intuition congruence].
      destruct (isMapEntry (messageOptions e)); [|by case_decide].
      destruct (mapFieldOptions e) as [o|]; [|done]. cbn.
      destruct (getFieldType (key o).1 _ _ _); [done|]. cbn.
      by destruct (getFieldType (value o).1 _ _ _).
    - destruct (decide (FieldDescriptorProto.getType field = ENUM_TYPE)) as [Ht'|Ht']; [|done].
      destruct (getEnum em _) as [e|] eqn:He; [|intuition congruence]. by case_decide. }
  destruct (resolveField fn em field) as [[k v|t]|e]; cbn; [done..|].
  split; congruence.
Qed.

Lemma printMessage_examined_throws fn em fd m (field : Field) :
  examined m field → missingExport em field →
  ∀ lvl, throws (printMessage fn em m lvl fd).
Proof.
  intros Hex Hmiss. induction Hex as [m f Hme Hin|m n f Hme Hin Hex IH]; intros lvl;
    rewrite printMessage_unfold, Hme; unfold printMessageBody.
  - destruct (forEach_throws (printField fn em fd) _ f Hin
                (λ s, printField_missing_throws fn em fd s f Hmiss)
                (Printer.printLn ("export class " +:+ DescriptorProto.getName m +:+ " {")
                   (Printer.new lvl), ∅)) as [e ->].
    by exists e.
  - destruct (forEach (printField fn em fd) _ _) as [st|e]; cbn; [|by exists e].
    destruct (forEach_throws
                (λ p nested,
                   msgOutput ← printMessage fn em nested (lvl + 1)%nat fd;
                   Ok (printNested msgOutput p))
                _ n Hin) with (s := st.1) as [e ->].
    + intros s. destruct (IH Hmiss (lvl + 1)%nat) as [e ->]. by exists e.
    + by exists e.
Qed.

Lemma printMessage_resolved fn em fd (n : string) m :
  (∀ field, examined m field → ¬ missingExport em field) →
  ∀ lvl, printMessage fn em m lvl fd ≠ Throw (NoMessageExport n)
         ∧ printMessage fn em m lvl fd ≠ Throw (NoEnumExport n).
Proof.
  induction m as [nm o fs ns es os xs IH] using DescriptorProto_nested_ind.
  intros Hres lvl. rewrite printMessage_unfold. cbn [DescriptorProto.getOptions].
  destruct (isMapEntry o) eqn:Hme; [done|]. unfold printMessageBody. cbn.
  assert (∀ e, (e = NoMessageExport n ∨ e = NoEnumExport n) →
            ∀ st, forEach (printField fn em fd) fs st ≠ Throw e) as Hfs.
  { intros e He. apply forEach_no_exn. intros s a Ha.
    destruct (printField_resolved fn em fd s a n) as [H1 H2];
      [|by destruct He as [-> | ->]].
    apply Hres. by apply examined_field. }
  assert (∀ e, (e = NoMessageExport n ∨ e = NoEnumExport n) →
            ∀ p, forEach (λ p nested,
                            msgOutput ← printMessage fn em nested (lvl + 1)%nat fd;
                            Ok (printNested msgOutput p)) ns p ≠ Throw e) as Hns.
  { intros e He. apply forEach_no_exn. intros s a Ha.
    rewrite Forall_forall in IH. destruct (IH a Ha) with (lvl := (lvl + 1)%nat) as [H1 H2].
    - intros f Hf. apply Hres. by eapply examined_nested.
    - destruct (printMessage fn em a (lvl + 1)%nat fd); cbn; [done|].
      destruct He as [-> | ->]; congruence. }
  assert (∀ e, (e = NoMessageExport n ∨ e = NoEnumExport n) →
            ∀ p, printExtensions fn em xs lvl p ≠ Throw e) as Hxs.
  { intros e He. apply forEach_no_exn. intros s a Ha.
    destruct (printExtension fn em a (lvl + 1)%nat); cbn; [|done].
    by destruct He as [-> | ->]. }
  assert (∀ e, (e = NoMessageExport n ∨ e = NoEnumExport n) →
            (st ← forEach (printField fn em fd) fs
                    (Printer.printLn ("export class " +:+ nm +:+ " {") (Printer.new lvl), ∅);
             printer ← forEach (λ p nested,
                           msgOutput ← printMessage fn em nested (lvl + 1)%nat fd;
                           Ok (printNested msgOutput p)) ns st.1;
             printer ← printExtensions fn em xs lvl
                         (printOneOfs os st.2 lvl (printEnums es lvl printer));
             Ok (Printer.getOutput (Printer.printLn "}" printer))) ≠ Throw e) as Hall.
  { intros e He.
    destruct (forEach (printField fn em fd) fs _) as [st|e1] eqn:H1; cbn;
      [|intros [= ->]; by eapply Hfs].
    destruct (forEach _ ns st.1) as [p1|e2] eqn:H2; cbn; [|intros [= ->]; by eapply Hns].
    destruct (printExtensions fn em xs lvl _) as [p2|e3] eqn:H3; cbn;
      [done|intros [= ->]; by eapply Hxs]. }
  split; apply Hall; auto.
Qed.

(** C2, as amended. A field that printMessage examines (a field of a
    message that is not a map entry, or of such a message nested in it) and
    whose message or enum type has no entry in the export map makes the
    field callback throw the error of its kind and the whole call throw, so
    that no text is returned; and when every examined field resolves,
    printMessage throws neither of the two errors. *)
Theorem missing_export_aborts_examined_fields :
  (∀ fn em fd st (field : Field),
     let fullTypeName := slice1 (FieldDescriptorProto.getTypeName field) in
     (FieldDescriptorProto.getType field = MESSAGE_TYPE →
      getMessage em fullTypeName = None →
      printField fn em fd st field = Throw (NoMessageExport fullTypeName))
     ∧ (FieldDescriptorProto.getType field = ENUM_TYPE →
        getEnum em fullTypeName = None →
        printField fn em fd st field = Throw (NoEnumExport fullTypeName)))
  ∧ (∀ fn em fd m lvl (field : Field),
       examined m field → missingExport em field →
       throws (printMessage fn em m lvl fd)
       ∧ ∀ out, printMessage fn em m lvl fd ≠ Ok out)
  ∧ (∀ fn em fd m lvl,
       (∀ field, examined m field → ¬ missingExport em field) →
       ∀ n, printMessage fn em m lvl fd ≠ Throw (NoMessageExport n)
            ∧ printMessage fn em m lvl fd ≠ Throw (NoEnumExport n)).
Proof.
  split; [|split].
  - intros fn em fd st field fullTypeName. split.
    + apply printField_missing_message.
    + apply printField_missing_enum.
  - intros fn em fd m lvl field Hex Hmiss.
    destruct (printMessage_examined_throws fn em fd m field Hex Hmiss lvl) as [e He].
    split; [by exists e|]. intros out. by rewrite He.
  - intros fn em fd m lvl Hres n. by apply printMessage_resolved.
Qed.

End MessageProperties.

Section ServiceProperties.
Context `{Imported}.

(** ** Lines of the code printer *)

Lemma emit_emit (t1 t2 : string) (d1 d2 : Z) (cp : CodePrinter.t) :
  emit t2 d2 (emit t1 d1 cp) = emit (t1 +:+ t2) d2 cp.
Proof. unfold emit, Printer.print; cbn. by rewrite append_assoc. Qed.

Lemma emit_nil (cp : CodePrinter.t) : cp = emit "" (CodePrinter.depth cp) cp.
Proof.
  destruct cp as [d [i o]]. unfold emit, Printer.print; cbn. by rewrite append_nil_r.
Qed.

Lemma printLn_emit (line : string) (t : string) (d : Z) (cp : CodePrinter.t) :
  CodePrinter.printLn line (emit t d cp)
  = emit (t +:+ codeLine (Printer.indentStr (CodePrinter.printer cp)) d line) d cp.
Proof.
  unfold CodePrinter.printLn, emit, Printer.printLn, Printer.print, codeLine; cbn.
  by autorewrite with text.
Qed.

Lemma printEmptyLn_emit (t : string) (d : Z) (cp : CodePrinter.t) :
  CodePrinter.printEmptyLn (emit t d cp) = emit (t +:+ nl) d cp.
Proof.
  unfold CodePrinter.printEmptyLn, emit, Printer.printEmptyLn, Printer.print; cbn.
  by autorewrite with text.
Qed.

Lemma indent_emit (t : string) (d : Z) (cp : CodePrinter.t) :
  CodePrinter.indent (emit t d cp) = emit t (d + 1) cp.
Proof. reflexivity. Qed.

Lemma dedent_emit (t : string) (d : Z) (cp : CodePrinter.t) :
  CodePrinter.dedent (emit t d cp) = emit t (d - 1) cp.
Proof. reflexivity. Qed.

Create Rewrite HintDb emit.
#[local] Hint Rewrite emit_emit printLn_emit printEmptyLn_emit indent_emit dedent_emit
  Z.add_simpl_r : emit.

(** Collects the text a sequence of printer calls appends to [emit t d cp]. *)
Ltac collect_lines :=
  autorewrite with emit; autorewrite with text; try reflexivity.

(** ** Client stubs *)

Lemma printUnaryStubMethodTypes_emit (t : string) (d : Z) (cp : CodePrinter.t)
    (service : RPCDescriptor) (method : RPCMethodDescriptor.t) :
  printUnaryStubMethodTypes (emit t d cp) service method
  = emit (t +:+ unaryStub (Printer.indentStr (CodePrinter.printer cp)) d
                  (RPCMethodDescriptor.functionName method) (name service)
                  (RPCMethodDescriptor.nameAsPascalCase method)
                  (RPCMethodDescriptor.requestType method)
                  (RPCMethodDescriptor.responseType method)) d cp.
Proof.
  unfold printUnaryStubMethodTypes. collect_lines.
  unfold unaryStub, outgoingEnvelope. by autorewrite with text.
Qed.

Lemma printUnaryStubBatchMethodTypes_emit (t : string) (d : Z) (cp : CodePrinter.t)
    (service : RPCDescriptor) (method : RPCMethodDescriptor.t) :
  printUnaryStubBatchMethodTypes (emit t d cp) service method
  = emit (t +:+ batchStub (Printer.indentStr (CodePrinter.printer cp)) d
                  (RPCMethodDescriptor.functionName method) (name service)
                  (RPCMethodDescriptor.nameAsPascalCase method)
                  (RPCMethodDescriptor.requestType method)
                  (RPCMethodDescriptor.responseType method)) d cp.
Proof.
  unfold printUnaryStubBatchMethodTypes. collect_lines.
  unfold batchStub, outgoingEnvelope. by autorewrite with text.
Qed.

Lemma printStub_emit (t : string) (d : Z) (cp : CodePrinter.t)
    (service : RPCDescriptor) (method : RPCMethodDescriptor.t) :
  let i := Printer.indentStr (CodePrinter.printer cp) in
  let id := RPCMethodDescriptor.functionName method in
  let M := RPCMethodDescriptor.nameAsPascalCase method in
  let req := RPCMethodDescriptor.requestType method in
  let resp := RPCMethodDescriptor.responseType method in
  printStub service (emit t d cp) method
  = emit (t +:+ (if nonStreaming method
                 then unaryStub i d id (name service) M req resp
                        +:+ batchStub i d id (name service) M req resp
                 else "")) d cp.
Proof.
  cbn. unfold printStub, nonStreaming.
  destruct (negb (RPCMethodDescriptor.requestStream method)
            && negb (RPCMethodDescriptor.responseStream method)).
  - rewrite printUnaryStubMethodTypes_emit, printUnaryStubBatchMethodTypes_emit.
    by autorewrite with text.
  - by autorewrite with text.
Qed.

Lemma foldl_printStub (service : RPCDescriptor) (ms : list RPCMethodDescriptor.t)
    (t : string) (cp : CodePrinter.t) :
  foldl (printStub service) (emit t 2 cp) ms
  = emit (t +:+ concatStrings
                  (map (stubsOf (Printer.indentStr (CodePrinter.printer cp)) service)
                     (List.filter nonStreaming ms))) 2 cp.
Proof.
  revert t. induction ms as [|m ms IH]; intros t; cbn [foldl List.filter].
  - cbn. by autorewrite with text.
  - rewrite printStub_emit, IH. cbn zeta.
    destruct (nonStreaming m); cbn [map]; rewrite ?concatStrings_cons; unfold stubsOf;
      by autorewrite with text.
Qed.

Lemma printClientHead_emit (t : string) (cp : CodePrinter.t) :
  printClientHead (emit t 1 cp)
  = emit (t +:+ clientHead (Printer.indentStr (CodePrinter.printer cp))) 2 cp.
Proof.
  unfold clientHead.
  rewrite (emit_nil (CodePrinter.new 1 (emptyPrinter _))).
  unfold printClientHead. collect_lines.
Qed.

(** The descriptors the [methods] getter builds follow the method list. *)
Lemma mapArray_Forall2 {A B : Type} (f : A → result B) (l : list A) (r : list B) :
  mapArray f l = Ok r → Forall2 (λ a b, f a = Ok b) l r.
Proof.
  revert r. induction l as [|a l IH]; intros r Hr; cbn in Hr.
  - simplify_eq. constructor.
  - destruct (f a) as [b|e] eqn:Hf; [|done].
    destruct (mapArray f l) as [bs|e]; [|done]. simplify_eq.
    constructor; [done|by apply IH].
Qed.

Lemma rpcMethod_fields (service : RPCDescriptor) (md : MethodDescriptorProto.t)
    (method : RPCMethodDescriptor.t) :
  rpcMethod service md = Ok method →
  RPCMethodDescriptor.nameAsPascalCase method = MethodDescriptorProto.getName md
  ∧ RPCMethodDescriptor.functionName method
    = normaliseFieldObjectName (MethodDescriptorProto.getName md)
  ∧ RPCMethodDescriptor.serviceName method = name service
  ∧ RPCMethodDescriptor.requestStream method = MethodDescriptorProto.getClientStreaming md
  ∧ RPCMethodDescriptor.responseStream method = MethodDescriptorProto.getServerStreaming md.
Proof.
  unfold rpcMethod. destruct (getCallingTypes md _) as [ct|e]; cbn; [|done].
  destruct (lowerFirst _) as [lc|e]; cbn; [|done]. by intros [= <-].
Qed.

Lemma printServiceStubTypes_closed (p : Printer.t) (service : RPCDescriptor)
    (ms : list RPCMethodDescriptor.t) :
  methods service = Ok ms →
  printServiceStubTypes p service
    = Ok (Printer.print (clientClass (Printer.indentStr p) service ms) p).
Proof.
  intros Hms. unfold printServiceStubTypes. rewrite Hms. cbn [mbind result_bind].
  rewrite (emit_nil (CodePrinter.new 1 p)).
  cbn [CodePrinter.depth CodePrinter.new CodePrinter.printer].
  rewrite printClientHead_emit, foldl_printStub. autorewrite with emit.
  unfold emit, clientClass, Printer.print.
  cbn [CodePrinter.printer CodePrinter.new Printer.indentStr Printer.output].
  do 2 f_equal. by autorewrite with text.
Qed.

Lemma printServiceStubTypes_throws (p : Printer.t) (service : RPCDescriptor) (e : exn) :
  methods service = Throw e → printServiceStubTypes p service = Throw e.
Proof. intros Hms. unfold printServiceStubTypes. by rewrite Hms. Qed.

(** C6. When the method descriptors of a service are built, the client
    stub printer returns, and what it appends is the Client class with the
    unary and the batch stub of every method that streams in neither
    direction, once each and in declaration order, and nothing for a
    method that streams; the streaming flags are those of the declared
    methods. *)
Theorem client_stubs_for_non_streaming_methods :
  ∀ (methodPrinter : Printer.t) (service : RPCDescriptor) (ms : list RPCMethodDescriptor.t),
    methods service = Ok ms →
    printServiceStubTypes methodPrinter service
      = Ok (Printer.print (clientClass (Printer.indentStr methodPrinter) service ms)
              methodPrinter)
    ∧ Forall2 (λ md m,
                 RPCMethodDescriptor.nameAsPascalCase m = MethodDescriptorProto.getName md
                 ∧ nonStreaming m
                   = negb (MethodDescriptorProto.getClientStreaming md)
                     && negb (MethodDescriptorProto.getServerStreaming md))
        (ServiceDescriptorProto.getMethodList (protoService service)) ms.
Proof.
  intros p service ms Hms. split.
  - by apply printServiceStubTypes_closed.
  - apply mapArray_Forall2 in Hms.
    eapply Forall2_impl; [exact Hms|]. intros md m Hm.
    apply rpcMethod_fields in Hm as (Hn & _ & _ & Hq & Hr).
    unfold nonStreaming. by rewrite Hn, Hq, Hr.
Qed.

(** C7. For a method that streams in neither direction the stub callback
    appends the unary stub, named by the normalised method name and taking
    [requestMessage] and [options?], then the batch stub, named the same
    with the suffix [Batch] and taking [requestMessages[]]; both build the
    envelope with id 1, method [Service.Method] from the declared names,
    the payload as params and version 2.0. *)
Theorem stubs_build_jsonrpc_envelope :
  ∀ (service : RPCDescriptor) (md : MethodDescriptorProto.t)
    (method : RPCMethodDescriptor.t) (cp : CodePrinter.t),
    rpcMethod service md = Ok method →
    MethodDescriptorProto.getClientStreaming md = false →
    MethodDescriptorProto.getServerStreaming md = false →
    let i := Printer.indentStr (CodePrinter.printer cp) in
    let d := CodePrinter.depth cp in
    let id := normaliseFieldObjectName (MethodDescriptorProto.getName md) in
    let S := ServiceDescriptorProto.getName (protoService service) in
    let M := MethodDescriptorProto.getName md in
    let req := RPCMethodDescriptor.requestType method in
    let resp := RPCMethodDescriptor.responseType method in
    printUnaryStubMethodTypes cp service method = emit (unaryStub i d id S M req resp) d cp
    ∧ printUnaryStubBatchMethodTypes cp service method
      = emit (batchStub i d id S M req resp) d cp
    ∧ printStub service cp method
      = emit (unaryStub i d id S M req resp +:+ batchStub i d id S M req resp) d cp.
Proof.
  intros service md method cp Hm Hq Hr. cbn zeta.
  apply rpcMethod_fields in Hm as (Hn & Hf & _ & Hq' & Hr').
  pose proof (printUnaryStubMethodTypes_emit "" (CodePrinter.depth cp) cp service method)
    as H1.
  pose proof (printUnaryStubBatchMethodTypes_emit "" (CodePrinter.depth cp) cp service method)
    as H2.
  pose proof (printStub_emit "" (CodePrinter.depth cp) cp service method) as H3.
  cbn zeta in H3. rewrite <- emit_nil in H1, H2, H3. rewrite H1, H2, H3.
  unfold nonStreaming, name. rewrite Hq', Hr', Hq, Hr, Hn, Hf. cbn [negb andb].
  by autorewrite with text.
Qed.

(** ** Imports *)

Lemma prefix_nil (t : string) : String.prefix "" t = true.
Proof. by destruct t. Qed.

Lemma prefix_cons (a b : ascii) (p t : string) :
  String.prefix (String a p) (String b t) = bool_decide (a = b) && String.prefix p t.
Proof.
  change (String.prefix (String a p) (String b t))
    with (if ascii_dec a b then String.prefix p t else false).
  destruct (ascii_dec a b); by case_bool_decide.
Qed.

Lemma prefix_append (p t : string) :
  String.prefix p t = true ↔ ∃ r, t = p +:+ r.
Proof.
  revert t. induction p as [|a p IH]; intros t.
  - rewrite prefix_nil. split; [by exists t|done].
  - destruct t as [|b t].
    + split; [done|]. by intros [r Hr].
    + rewrite prefix_cons, andb_true_iff, bool_decide_eq_true, IH. split.
      * intros [-> [r ->]]. by exists r.
      * intros [r Hr]. rewrite append_cons in Hr. simplify_eq. eauto.
Qed.

(** [t.indexOf(p) === 0] holds exactly when [t] starts with [p]. *)
Lemma indexOf_zero (t p : string) : (indexOf t p =? 0) = String.prefix p t.
Proof.
  unfold indexOf. destruct t as [|b t].
  - by destruct p.
  - change (String.index 0 p (String b t))
      with (if String.prefix p (String b t) then Some O
            else match String.index 0 p t with Some n => Some (S n) | None => None end).
    destruct (String.prefix p (String b t)); [done|].
    by destruct (String.index 0 p t).
Qed.

Lemma typeNamespace_qualified (ns r : string) :
  noDot ns → typeNamespace (ns +:+ "." +:+ r) = Some ns.
Proof.
  unfold noDot. induction ns as [|c ns IH]; [done|]. rewrite append_cons. cbn.
  case_decide; [done|]. destruct (typeNamespace ns); [done|]. intros _. by rewrite IH.
Qed.

Lemma typeNamespace_Some (t ns : string) :
  typeNamespace t = Some ns → ∃ r, t = ns +:+ "." +:+ r.
Proof.
  revert ns. induction t as [|c t IH]; intros ns; cbn; [done|]. case_decide as Hc.
  - intros [= <-]. subst c. by exists t.
  - destruct (typeNamespace t) as [ns'|]; cbn; [|done]. intros [= <-].
    destruct (IH ns' eq_refl) as [r ->]. by exists r.
Qed.

(** For a namespace without a dot, the test of [isUsed] holds exactly for
    the type expressions of that namespace. *)
Lemma indexOf_namespace (t ns : string) :
  noDot ns → (indexOf t (ns +:+ ".") =? 0) = true ↔ typeNamespace t = Some ns.
Proof.
  intros Hns. rewrite indexOf_zero, prefix_append. split.
  - intros [r ->]. rewrite append_assoc. by apply typeNamespace_qualified.
  - intros [r ->]%typeNamespace_Some. exists r. by rewrite append_assoc.
Qed.

Lemma mapArray_app {A B : Type} (f : A → result B) (l1 l2 : list A) (r : list B) :
  mapArray f (l1 ++ l2) = Ok r →
  ∃ r1 r2, mapArray f l1 = Ok r1 ∧ mapArray f l2 = Ok r2 ∧ r = r1 ++ r2.
Proof.
  revert r. induction l1 as [|a l1 IH]; intros r Hr; cbn in *.
  - by exists [], r.
  - destruct (f a) as [b|e]; [|done].
    destruct (mapArray f (l1 ++ l2)) as [bs|e]; [|done]. simplify_eq.
    destruct (IH bs eq_refl) as (r1 & r2 & -> & H2 & ->). by exists (b :: r1), r2.
Qed.

Lemma some_mapArray {A B : Type} (f : A → result B) (test : B → bool) (l : list A)
    (r : list B) :
  mapArray f l = Ok r →
  some (λ a, b ← f a; Ok (test b)) l = Ok (existsb test r).
Proof.
  revert r. induction l as [|a l IH]; intros r Hr; cbn in *.
  - by simplify_eq.
  - destruct (f a) as [b|e]; [|done].
    destruct (mapArray f l) as [bs|e]; [|done]. simplify_eq. cbn.
    destruct (test b); [done|]. by apply IH.
Qed.

Lemma isUsed_existsb fd em (cts : list CallingTypes.t) (ns : string) :
  mapArray (λ md, getCallingTypes md em) (allMethods fd) = Ok cts →
  isUsed fd ns em
  = Ok (existsb (λ ct, (indexOf (CallingTypes.requestType ct) (ns +:+ ".") =? 0)
                       || (indexOf (CallingTypes.responseType ct) (ns +:+ ".") =? 0)) cts).
Proof.
  unfold isUsed, allMethods. generalize (FileDescriptorProto.getServiceList fd).
  intros svs. revert cts. induction svs as [|sv svs IH]; intros cts Hcts; cbn in *.
  - by simplify_eq.
  - apply mapArray_app in Hcts as (r1 & r2 & H1 & H2 & ->).
    rewrite (some_mapArray _ _ _ _ H1), existsb_app.
    destruct (existsb _ r1); [done|]. by apply IH.
Qed.

Lemma filterArray_pure {A : Type} (f : A → result bool) (b : A → bool) (l : list A) :
  (∀ a, a ∈ l → f a = Ok (b a)) → filterArray f l = Ok (List.filter b l).
Proof.
  induction l as [|a l IH]; intros Hf; cbn; [done|].
  rewrite (Hf a) by apply list_elem_of_here.
  rewrite IH; [done|]. intros a' Ha'. apply Hf. by apply list_elem_of_further.
Qed.

Lemma filter_decide {A : Type} (b : A → bool) (P : A → Prop) `{∀ a, Decision (P a)}
    (l : list A) :
  (∀ a, a ∈ l → b a = true ↔ P a) → List.filter b l = filter P l.
Proof.
  induction l as [|a l IH]; intros Hb; [done|]. cbn [List.filter].
  rewrite filter_cons, IH by (intros a' Ha'; apply Hb; by apply list_elem_of_further).
  pose proof (Hb a (list_elem_of_here _ _)) as Ha.
  destruct (b a); case_decide; intuition congruence.
Qed.

(** C4. When the calling types of the file's methods resolve to [cts] and
    the pseudo-namespaces of the dependencies are identifiers without a
    dot, the import list is the host file's own entry followed by the
    entries of the dependencies that some request or response type
    references by namespace, in the order the file declares them. *)
Theorem imports_host_then_used_dependencies :
  ∀ fd em (cts : list CallingTypes.t),
    mapArray (λ md, getCallingTypes md em) (allMethods fd) = Ok cts →
    (∀ d, d ∈ FileDescriptorProto.getDependencyList fd →
          noDot (filePathToPseudoNamespace d)) →
    let sd := newRPCServiceDescriptor fd em in
    imports sd
      = Ok (hostProto sd
            :: map (dependencyImport sd)
                 (filter (λ d, referencesNamespace cts (filePathToPseudoNamespace d))
                    (FileDescriptorProto.getDependencyList fd)))
    ∧ ImportDescriptor.namespace (hostProto sd)
      = filePathToPseudoNamespace (FileDescriptorProto.getName fd)
    ∧ ∀ d, ImportDescriptor.namespace (dependencyImport sd d) = filePathToPseudoNamespace d.
Proof.
  intros fd em cts Hcts Hns sd. split; [|split].
  - unfold imports.
    rewrite (filterArray_pure _
               (λ d, existsb
                       (λ ct, (indexOf (CallingTypes.requestType ct)
                                 (filePathToPseudoNamespace d +:+ ".") =? 0)
                              || (indexOf (CallingTypes.responseType ct)
                                    (filePathToPseudoNamespace d +:+ ".") =? 0)) cts)).
    + cbn. do 3 f_equal. apply filter_decide. intros d Hd.
      unfold referencesNamespace. rewrite existsb_exists, Exists_exists.
      split; intros (ct & Hct & Htest); exists ct.
      * apply list_elem_of_In in Hct. split; [done|].
        apply orb_true_iff in Htest as [Ht|Ht];
          apply (indexOf_namespace _ _ (Hns d Hd)) in Ht; auto.
      * apply list_elem_of_In in Hct. split; [done|]. apply orb_true_iff.
        destruct Htest as [Ht|Ht]; apply (indexOf_namespace _ _ (Hns d Hd)) in Ht; auto.
    + intros d _. by apply isUsed_existsb.
  - done.
  - intros d. unfold dependencyImport. by destruct (WellKnownTypesMap !! d).
Qed.

(** ** Loops that return *)

Lemma forEach_ok {A S : Type} (f : S → A → result S) (l : list A) :
  (∀ s a, a ∈ l → ∃ s', f s a = Ok s') → ∀ s, ∃ s', forEach f l s = Ok s'.
Proof.
  induction l as [|a l IH]; intros Hf s; cbn; [by exists s|].
  destruct (Hf s a) as [s1 ->]; [apply list_elem_of_here|].
  apply IH. intros s0 b Hb. apply Hf. by apply list_elem_of_further.
Qed.

(** ** A file without services *)

(** C3. For a file whose service list is empty the generated text is the
    two header comment lines and one empty line, and nothing else. *)
Theorem no_services_header_only :
  ∀ fd em,
    FileDescriptorProto.getServiceList fd = [] →
    generateTypescriptDefinition fd em =
      Ok ("// package: " +:+ FileDescriptorProto.getPackage fd +:+ nl
          +:+ "// file: " +:+ FileDescriptorProto.getName fd +:+ nl
          +:+ nl).
Proof.
  intros fd em Hs. unfold generateTypescriptDefinition, services. cbn. rewrite Hs. cbn.
  unfold packageName, filename. cbn. f_equal. by autorewrite with text.
Qed.

(** ** The namespace around the service body *)

Lemma codeLine_top (line : string) : codeLine "" 0 line = line +:+ nl.
Proof. reflexivity. Qed.

Lemma printHeader_emit sd (t : string) (d : Z) (cp : CodePrinter.t) :
  printHeader sd (emit t d cp)
  = emit (t +:+ codeLine (Printer.indentStr (CodePrinter.printer cp)) d
                  ("// package: " +:+ packageName sd)
            +:+ codeLine (Printer.indentStr (CodePrinter.printer cp)) d
                  ("// file: " +:+ filename sd)
            +:+ nl) d cp.
Proof. unfold printHeader. collect_lines. Qed.

Lemma foldl_printLn_emit {A : Type} (stmt : A → string) (l : list A) (t : string) (d : Z)
    (cp : CodePrinter.t) :
  foldl (λ p a, CodePrinter.printLn (stmt a) p) (emit t d cp) l
  = emit (t +:+ concatStrings
                  (map (λ a, codeLine (Printer.indentStr (CodePrinter.printer cp)) d (stmt a))
                     l)) d cp.
Proof.
  revert t. induction l as [|a l IH]; intros t; cbn [foldl map].
  - cbn. by autorewrite with text.
  - rewrite printLn_emit, IH, concatStrings_cons. by autorewrite with text.
Qed.

Lemma printImports_top (importList : list ImportDescriptor.t) (t : string) :
  printImports importList (emit t 0 (CodePrinter.new 0 (emptyPrinter "")))
  = emit (t +:+ importsText importList) 0 (CodePrinter.new 0 (emptyPrinter "")).
Proof.
  unfold printImports.
  rewrite (foldl_printLn_emit
             (λ importDescriptor,
                "import * as " +:+ ImportDescriptor.namespace importDescriptor +:+ " from "
                  +:+ quoted (ImportDescriptor.path importDescriptor) +:+ ";")).
  autorewrite with emit. cbn [CodePrinter.printer CodePrinter.new emptyPrinter Printer.indentStr].
  f_equal. unfold importsText. rewrite !codeLine_top. autorewrite with text.
  do 2 f_equal. induction importList as [|a l IH]; [done|]. cbn [map].
  rewrite !concatStrings_cons, codeLine_top, IH. by autorewrite with text.
Qed.

Lemma printServiceTypes_ok (cp : CodePrinter.t) (service : RPCDescriptor)
    (ms : list RPCMethodDescriptor.t) :
  methods service = Ok ms → ∃ cp', printServiceTypes cp service = Ok cp'.
Proof. intros Hms. unfold printServiceTypes. rewrite Hms. by eexists. Qed.

Lemma printServiceClient_ok (cp : CodePrinter.t) (service : RPCDescriptor)
    (ms : list RPCMethodDescriptor.t) :
  methods service = Ok ms → ∃ cp', printServiceClient cp service = Ok cp'.
Proof.
  intros Hms. unfold printServiceClient.
  rewrite (printServiceStubTypes_closed _ service ms Hms). by eexists.
Qed.

Lemma mapArray_ok {A B : Type} (f : A → result B) (l : list A) :
  (∀ a, a ∈ l → ∃ b, f a = Ok b) → ∃ r, mapArray f l = Ok r.
Proof.
  induction l as [|a l IH]; intros Hf; cbn; [by eexists|].
  destruct (Hf a) as [b ->]; [apply list_elem_of_here|].
  destruct IH as [r ->]; [|by eexists].
  intros a' Ha'. apply Hf. by apply list_elem_of_further.
Qed.

Lemma mapArray_elem {A B : Type} (f : A → result B) (l : list A) (r : list B) (a : A) :
  mapArray f l = Ok r → a ∈ l → ∃ b, f a = Ok b.
Proof.
  intros Hr%mapArray_Forall2 Ha. revert a Ha. induction Hr as [|x y l r Hxy _ IH]; intros a Ha.
  - by apply not_elem_of_nil in Ha.
  - apply elem_of_cons in Ha as [->|Ha]; [by exists y|by apply IH].
Qed.

Lemma allMethods_callingTypes fd em :
  (∀ service, service ∈ services (newRPCServiceDescriptor fd em) →
              ∃ ms, methods service = Ok ms) →
  ∃ cts, mapArray (λ md, getCallingTypes md em) (allMethods fd) = Ok cts.
Proof.
  intros Hms. apply mapArray_ok. intros md Hmd.
  unfold allMethods in Hmd. apply list_elem_of_In, in_concat in Hmd as (l & Hl & Hmd).
  apply in_map_iff in Hl as (sv & <- & Hsv).
  destruct (Hms {| protoService := sv; rpcExportMap := em |}) as [ms Hsvms].
  { unfold services; cbn. apply list_elem_of_In, in_map_iff. by exists sv. }
  destruct (mapArray_elem _ _ _ md Hsvms) as [m Hm]; [by apply list_elem_of_In|].
  unfold rpcMethod in Hm; cbn in Hm.
  destruct (getCallingTypes md em) as [ct|e]; [by exists ct|done].
Qed.

Lemma imports_ok fd em (cts : list CallingTypes.t) :
  mapArray (λ md, getCallingTypes md em) (allMethods fd) = Ok cts →
  ∃ importList, imports (newRPCServiceDescriptor fd em) = Ok importList.
Proof.
  intros Hcts. unfold imports.
  rewrite (filterArray_pure _
             (λ d, existsb
                     (λ ct, (indexOf (CallingTypes.requestType ct)
                               (filePathToPseudoNamespace d +:+ ".") =? 0)
                            || (indexOf (CallingTypes.responseType ct)
                                  (filePathToPseudoNamespace d +:+ ".") =? 0)) cts)).
  - by eexists.
  - intros d _. by apply isUsed_existsb.
Qed.

(** The text before the service body. *)
Lemma prologue_closed fd em (importList : list ImportDescriptor.t) (ns : string) :
  CodePrinter.indent
    (CodePrinter.printLn ("export namespace " +:+ ns +:+ " {")
       (printImports importList
          (printHeader (newRPCServiceDescriptor fd em) (CodePrinter.new 0 (Printer.new 0)))))
  = emit (headerText fd +:+ importsText importList
            +:+ ("export namespace " +:+ ns +:+ " {" +:+ nl))
      1 (CodePrinter.new 1 (emptyPrinter "")).
Proof.
  change (CodePrinter.new 0 (Printer.new 0)) with (CodePrinter.new 0 (emptyPrinter "")).
  rewrite (emit_nil (CodePrinter.new 0 (emptyPrinter ""))).
  cbn [CodePrinter.depth CodePrinter.new].
  rewrite printHeader_emit, printImports_top. autorewrite with emit.
  cbn [CodePrinter.printer CodePrinter.new emptyPrinter Printer.indentStr].
  rewrite !codeLine_top. unfold emit, Printer.print, headerText; cbn.
  do 2 f_equal. unfold packageName, filename; cbn. by autorewrite with text.
Qed.

(** The explicit texts are what the printers append. *)
Lemma clientClass_text (i : string) (service : RPCDescriptor)
    (ms : list RPCMethodDescriptor.t) :
  clientClass i service ms +:+ nl = clientClassText i service ms.
Proof.
  unfold clientClass, clientClassText, clientHead, clientHeadText.
  rewrite (emit_nil (CodePrinter.new 1 (emptyPrinter i))).
  unfold printClientHead. autorewrite with emit.
  unfold emit, Printer.print.
  cbn [CodePrinter.printer CodePrinter.new CodePrinter.depth emptyPrinter Printer.indentStr
       Printer.output].
  by autorewrite with text.
Qed.

Lemma printEnvelopeTypes_emit (t : string) (d : Z) (cp : CodePrinter.t) :
  printEnvelopeTypes (emit t d cp)
  = emit (t +:+ envelopeTypesText (Printer.indentStr (CodePrinter.printer cp)) d) d cp.
Proof.
  unfold printEnvelopeTypes. autorewrite with emit. unfold envelopeTypesText.
  by autorewrite with text.
Qed.

Lemma printMethodType_emit (t : string) (d : Z) (cp : CodePrinter.t)
    (m : RPCMethodDescriptor.t) :
  printMethodType (emit t d cp) m
  = emit (t +:+ methodAlias (Printer.indentStr (CodePrinter.printer cp)) d m) d cp.
Proof.
  unfold printMethodType. autorewrite with emit. unfold methodAlias.
  by autorewrite with text.
Qed.

Lemma printMethodMember_emit (t : string) (d : Z) (cp : CodePrinter.t)
    (m : RPCMethodDescriptor.t) :
  printMethodMember (emit t d cp) m
  = emit (t +:+ methodMember (Printer.indentStr (CodePrinter.printer cp)) d m) d cp.
Proof. unfold printMethodMember. by autorewrite with emit. Qed.

Lemma foldl_emit {A : Type} (f : CodePrinter.t → A → CodePrinter.t)
    (text : string → Z → A → string) (l : list A) (d : Z) (cp : CodePrinter.t) :
  (∀ t a, f (emit t d cp) a
          = emit (t +:+ text (Printer.indentStr (CodePrinter.printer cp)) d a) d cp) →
  ∀ t, foldl f (emit t d cp) l
       = emit (t +:+ concatStrings
                       (map (text (Printer.indentStr (CodePrinter.printer cp)) d) l)) d cp.
Proof.
  intros Hf. induction l as [|a l IH]; intros t; cbn [foldl map].
  - cbn. by autorewrite with text.
  - rewrite Hf, IH, concatStrings_cons. by autorewrite with text.
Qed.

Lemma printServiceTypes_emit (t : string) (d : Z) (cp : CodePrinter.t)
    (service : RPCDescriptor) (ms : list RPCMethodDescriptor.t) :
  methods service = Ok ms →
  printServiceTypes (emit t d cp) service
  = Ok (emit (t +:+ serviceTypesText (Printer.indentStr (CodePrinter.printer cp)) d service ms)
          d cp).
Proof.
  intros Hms. unfold printServiceTypes. rewrite Hms. cbn [mbind result_bind].
  rewrite (foldl_emit printMethodType methodAlias ms d cp
             (λ t' a, printMethodType_emit t' d cp a)).
  autorewrite with emit.
  rewrite (foldl_emit printMethodMember methodMember ms (d + 1) cp
             (λ t' a, printMethodMember_emit t' (d + 1) cp a)).
  autorewrite with emit. unfold serviceTypesText. by autorewrite with text.
Qed.

Lemma printServiceClient_emit (t : string) (d : Z) (cp : CodePrinter.t)
    (service : RPCDescriptor) (ms : list RPCMethodDescriptor.t) :
  methods service = Ok ms →
  printServiceClient (emit t d cp) service
  = Ok (emit (t +:+ clientClassText (Printer.indentStr (CodePrinter.printer cp)) service ms)
          d cp).
Proof.
  intros Hms. unfold printServiceClient.
  rewrite (printServiceStubTypes_closed _ service ms Hms). cbn [mbind result_bind].
  rewrite <- clientClass_text.
  unfold emit, CodePrinter.printEmptyLn, Printer.printEmptyLn, Printer.print; cbn.
  by autorewrite with text.
Qed.

Lemma forEach_emit (g : CodePrinter.t → RPCDescriptor → result CodePrinter.t)
    (text : string → Z → RPCDescriptor → list RPCMethodDescriptor.t → string)
    (d : Z) (cp : CodePrinter.t) (svs : list RPCDescriptor)
    (mss : list (list RPCMethodDescriptor.t)) :
  (∀ t sv ms, methods sv = Ok ms →
     g (emit t d cp) sv
     = Ok (emit (t +:+ text (Printer.indentStr (CodePrinter.printer cp)) d sv ms) d cp)) →
  mapArray methods svs = Ok mss →
  ∀ t, forEach g svs (emit t d cp)
       = Ok (emit (t +:+ concatStrings
                           (zip_with (text (Printer.indentStr (CodePrinter.printer cp)) d)
                              svs mss)) d cp).
Proof.
  intros Hg. revert mss. induction svs as [|sv svs IH]; intros mss Hmss t; cbn in Hmss.
  - simplify_eq. cbn. by autorewrite with text.
  - destruct (methods sv) as [ms|e] eqn:Hms; [|done].
    destruct (mapArray methods svs) as [mss'|e]; [|done]. simplify_eq.
    cbn [forEach zip_with]. rewrite (Hg t sv ms Hms), (IH mss' eq_refl), concatStrings_cons.
    by autorewrite with text.
Qed.

(** The two loops over the services, after the envelope types. *)
Lemma services_emit (svs : list RPCDescriptor) (mss : list (list RPCMethodDescriptor.t))
    (t : string) (d : Z) (cp : CodePrinter.t) :
  mapArray methods svs = Ok mss →
  ∃ printer,
    forEach printServiceTypes svs (printEnvelopeTypes (emit t d cp)) = Ok printer
    ∧ forEach printServiceClient svs printer
      = Ok (emit (t
                  +:+ envelopeTypesText (Printer.indentStr (CodePrinter.printer cp)) d
                  +:+ concatStrings
                        (zip_with
                           (serviceTypesText (Printer.indentStr (CodePrinter.printer cp)) d)
                           svs mss)
                  +:+ concatStrings
                        (zip_with
                           (clientClassText (Printer.indentStr (CodePrinter.printer cp)))
                           svs mss)) d cp).
Proof.
  intros Hmss. eexists. split.
  - rewrite printEnvelopeTypes_emit.
    by rewrite (forEach_emit printServiceTypes serviceTypesText d cp svs mss);
      [|intros; by apply printServiceTypes_emit|done].
  - rewrite (forEach_emit printServiceClient (λ i _, clientClassText i) d cp svs mss);
      [|intros; by apply printServiceClient_emit|done].
    by autorewrite with text.
Qed.

(** The generated text of a file with services, once the import list and
    the method descriptors are known. *)
Lemma generateTypescriptDefinition_closed fd em first rest
    (importList : list ImportDescriptor.t) (mss : list (list RPCMethodDescriptor.t)) :
  FileDescriptorProto.getServiceList fd = first :: rest →
  imports (newRPCServiceDescriptor fd em) = Ok importList →
  mapArray methods (services (newRPCServiceDescriptor fd em)) = Ok mss →
  generateTypescriptDefinition fd em
  = Ok (headerText fd +:+ importsText importList
        +:+ ("export namespace " +:+ ServiceDescriptorProto.getName first +:+ " {" +:+ nl)
        +:+ envelopeTypesText "" 1
        +:+ concatStrings
              (zip_with (serviceTypesText "" 1) (services (newRPCServiceDescriptor fd em)) mss)
        +:+ concatStrings
              (zip_with (clientClassText "") (services (newRPCServiceDescriptor fd em)) mss)
        +:+ ("}" +:+ nl)).
Proof.
  intros Hs Himp Hmss. unfold generateTypescriptDefinition.
  set (sd := newRPCServiceDescriptor fd em) in *.
  assert (∃ l, services sd
               = {| protoService := first; rpcExportMap := em |} :: l) as [l Hsv].
  { unfold services, sd; cbn. rewrite Hs. by eexists. }
  rewrite Himp. revert Hmss. rewrite Hsv. intros Hmss. cbn [mbind result_bind].
  unfold name at 1. cbn [protoService]. unfold sd at 1.
  rewrite prologue_closed.
  destruct (services_emit _ mss
              (headerText fd +:+ importsText importList
               +:+ ("export namespace " +:+ ServiceDescriptorProto.getName first
                    +:+ " {" +:+ nl))
              1 (CodePrinter.new 1 (emptyPrinter "")) Hmss) as (cpA & -> & HB).
  cbn [mbind result_bind]. rewrite HB. cbn [mbind result_bind].
  autorewrite with emit. unfold Printer.getOutput, emit, Printer.print.
  cbn [CodePrinter.printer CodePrinter.new emptyPrinter Printer.indentStr Printer.output].
  rewrite codeLine_top. f_equal. by autorewrite with text.
Qed.

(** C10. For a file with at least one service whose method descriptors
    are all built, the import list is computed and the generated text is
    the header, the import lines, the opening of one exported namespace
    named after the first declared service, then, one level deep, the two
    envelope types, the type aliases and class of every service, and the
    Client class of every service, and last the closing brace of that
    namespace: the text of every service of the file stands between the
    opening and the closing line of the namespace of the first. *)
Theorem service_body_in_namespace_of_first_service :
  ∀ fd em first rest (mss : list (list RPCMethodDescriptor.t)),
    FileDescriptorProto.getServiceList fd = first :: rest →
    mapArray methods (services (newRPCServiceDescriptor fd em)) = Ok mss →
    ∃ importList,
      imports (newRPCServiceDescriptor fd em) = Ok importList
      ∧ generateTypescriptDefinition fd em
        = Ok (headerText fd +:+ importsText importList
              +:+ ("export namespace " +:+ ServiceDescriptorProto.getName first +:+ " {" +:+ nl)
              +:+ envelopeTypesText "" 1
              +:+ concatStrings
                    (zip_with (serviceTypesText "" 1)
                       (services (newRPCServiceDescriptor fd em)) mss)
              +:+ concatStrings
                    (zip_with (clientClassText "")
                       (services (newRPCServiceDescriptor fd em)) mss)
              +:+ ("}" +:+ nl)).
Proof.
  intros fd em first rest mss Hs Hmss.
  destruct (allMethods_callingTypes fd em) as [cts Hcts].
  { intros service Hin. by eapply mapArray_elem. }
  destruct (imports_ok fd em cts Hcts) as [importList Himp].
  exists importList. split; [done|]. by eapply generateTypescriptDefinition_closed.
Qed.

End ServiceProperties.

(** * The statements on the sample schema *)

Lemma no_services_header_only_sample :
  generateTypescriptDefinition (H := Sample.helpers) Sample.proto3 Sample.exportMap
  = Ok ("// package: demo" +:+ nl +:+ "// file: demo/user.proto" +:+ nl +:+ nl).
Proof. apply (no_services_header_only (H := Sample.helpers)). reflexivity. Defined.

Lemma map_entry_sample :
  printMessage (H := Sample.helpers) "demo/user.proto" Sample.exportMap Sample.tagsEntry 1
    Sample.proto3 = Ok ""
  ∧ printField (H := Sample.helpers) "demo/user.proto" Sample.exportMap Sample.proto3
      (Printer.new (H := Sample.helpers) 0, ∅) Sample.tags
    = Ok (Printer.printIndentedLn (H := Sample.helpers)
            "tags: Map<string, Uint8Array | string>;" (Printer.new (H := Sample.helpers) 0),
          ∅)
  ∧ declares (H := Sample.helpers) "demo/user.proto" Sample.exportMap Sample.proto3
      Sample.user 0 "tags: Map<string, Uint8Array | string>;".
Proof.
  destruct (map_entry_never_standalone_fields_are_maps (H := Sample.helpers))
    as (Hentry & _ & Hfield).
  split; [apply Hentry; reflexivity|].
  destruct (Hfield "demo/user.proto" Sample.exportMap Sample.proto3 Sample.tags
              Sample.tagsExport Sample.tagsOptions "string" "Uint8Array")
    as [Hstep Hdecl]; [reflexivity..|].
  split; [apply (Hstep (Printer.new (H := Sample.helpers) 0, ∅))|].
  apply Hdecl; [reflexivity|].
  do 4 apply list_elem_of_further. apply list_elem_of_here.
Defined.

Lemma bytes_field_sample :
  printField (H := Sample.helpers) "demo/user.proto" Sample.exportMap Sample.proto3
    (Printer.new (H := Sample.helpers) 0, ∅) Sample.chunks
  = Ok (Printer.printIndentedLn (H := Sample.helpers)
          "chunks: Array<Uint8Array | string>;" (Printer.new (H := Sample.helpers) 0),
        ∅)
  ∧ declares (H := Sample.helpers) "demo/user.proto" Sample.exportMap Sample.proto3
      Sample.user 0 "avatar: Uint8Array | string;".
Proof.
  split.
  - apply (bytes_field_is_union (H := Sample.helpers) "demo/user.proto" Sample.exportMap
             Sample.proto3 Sample.chunks); reflexivity.
  - apply (bytes_field_is_union (H := Sample.helpers) "demo/user.proto" Sample.exportMap
             Sample.proto3 Sample.avatar); [reflexivity..|].
    apply list_elem_of_further, list_elem_of_here.
Defined.

Lemma repeated_field_sample :
  printField (H := Sample.helpers) "demo/user.proto" Sample.exportMap Sample.proto3
    (Printer.new (H := Sample.helpers) 0, ∅) Sample.names
  = Ok (Printer.printIndentedLn (H := Sample.helpers)
          "names: Array<string>;" (Printer.new (H := Sample.helpers) 0),
        ∅)
  ∧ printField (H := Sample.helpers) "demo/user.proto" Sample.exportMap Sample.proto3
      (Printer.new (H := Sample.helpers) 0, ∅) Sample.tags
    = Ok (Printer.printIndentedLn (H := Sample.helpers)
            "tags: Map<string, Uint8Array | string>;" (Printer.new (H := Sample.helpers) 0),
          ∅).
Proof.
  split.
  - destruct (repeated_field_is_array_unless_map (H := Sample.helpers) "demo/user.proto"
                Sample.exportMap Sample.proto3 Sample.names eq_refl) as [Harray _].
    destruct (Harray "string" eq_refl) as (_ & Hstep & _).
    apply (Hstep (Printer.new (H := Sample.helpers) 0, ∅)).
  - destruct (repeated_field_is_array_unless_map (H := Sample.helpers) "demo/user.proto"
                Sample.exportMap Sample.proto3 Sample.tags eq_refl) as [_ Hmap].
    destruct (Hmap "string" "Uint8Array | string" eq_refl) as (_ & Hstep & _).
    apply (Hstep (Printer.new (H := Sample.helpers) 0, ∅)).
Defined.

Lemma optional_marker_sample :
  (refersToMapEntry Sample.exportMap Sample.manager →
   FieldDescriptorProto.getLabel Sample.manager = LABEL_REPEATED)
  ∧ printField (H := Sample.helpers) "demo/user.proto" Sample.exportMap Sample.proto3
      (Printer.new (H := Sample.helpers) 0, ∅) Sample.manager
    = Ok (Printer.printIndentedLn (H := Sample.helpers)
            "manager?: User;" (Printer.new (H := Sample.helpers) 0),
          ∅).
Proof.
  assert (refersToMapEntry Sample.exportMap Sample.manager →
          FieldDescriptorProto.getLabel Sample.manager = LABEL_REPEATED) as Hrep.
  { intros (_ & e & He & Hme). vm_compute in He. injection He as <-.
    vm_compute in Hme. discriminate Hme. }
  split; [exact Hrep|].
  destruct (singular_member_optional_marker (H := Sample.helpers) "demo/user.proto"
              Sample.exportMap Sample.proto3 Sample.manager)
    as (marker & [[-> _]|[_ Hnot]] & _ & _ & _ & _ & Hline); [done|done|exact Hrep| |].
  - destruct (Hline "User" eq_refl) as [Hstep _].
    apply (Hstep (Printer.new (H := Sample.helpers) 0, ∅)).
  - exfalso. apply Hnot. left. split; [reflexivity|]. left. reflexivity.
Defined.

Lemma missing_export_sample :
  printField (H := Sample.helpers) "demo/user.proto" Sample.exportMap Sample.proto3
    (Printer.new (H := Sample.helpers) 0, ∅) Sample.dangling
  = Throw (NoMessageExport "demo.Missing")
  ∧ throws (printMessage (H := Sample.helpers) "demo/user.proto" Sample.exportMap
              Sample.broken 0 Sample.proto3)
  ∧ printMessage (H := Sample.helpers) "demo/user.proto" Sample.exportMap
      Sample.user 0 Sample.proto3 ≠ Throw (NoMessageExport "demo.User").
Proof.
  destruct (missing_export_aborts_examined_fields (H := Sample.helpers))
    as (Hfield & Hthrows & Hresolved).
  split; [|split].
  - apply (Hfield "demo/user.proto" Sample.exportMap Sample.proto3
             (Printer.new (H := Sample.helpers) 0, ∅) Sample.dangling); reflexivity.
  - apply (Hthrows "demo/user.proto" Sample.exportMap Sample.proto3 Sample.broken 0%nat
             Sample.dangling).
    + apply (examined_nested Sample.broken (Sample.message "Inner" None [Sample.dangling] []));
        [reflexivity|apply list_elem_of_here|].
      apply examined_field; [reflexivity|apply list_elem_of_here].
    + left. split; reflexivity.
  - apply (Hresolved "demo/user.proto" Sample.exportMap Sample.proto3 Sample.user 0%nat).
    intros f Hf. inversion Hf as [m f' Hme Hin|m n f' Hme Hn Hex]; subst.
    + cbn in Hin. repeat (apply elem_of_cons in Hin as [->|Hin]);
        [..|by apply not_elem_of_nil in Hin];
        intros [[Ht Hm]|[Ht Hm]]; vm_compute in Ht, Hm; discriminate.
    + cbn in Hn. apply elem_of_cons in Hn as [->|Hn]; [|by apply not_elem_of_nil in Hn].
      inversion Hex as [m f'' Hme' _|m n' f'' Hme' _ _]; subst; vm_compute in Hme';
        discriminate.
Defined.

(** C2, the claim as stated, fails on a message flagged as a map entry: its
    field has a message type without an entry in the export map, and
    printMessage returns the empty string instead of throwing. *)
Lemma map_entry_with_missing_export_prints_nothing :
  Sample.dangling ∈ DescriptorProto.getFieldList Sample.scoresEntry
  ∧ missingExport Sample.exportMap Sample.dangling
  ∧ printMessage (H := Sample.helpers) "demo/user.proto" Sample.exportMap
      Sample.scoresEntry 0 Sample.proto3 = Ok ""
  ∧ ¬ throws (printMessage (H := Sample.helpers) "demo/user.proto" Sample.exportMap
                Sample.scoresEntry 0 Sample.proto3).
Proof.
  split; [apply list_elem_of_further, list_elem_of_here|].
  split; [left; split; reflexivity|].
  split; [reflexivity|]. by intros [e He].
Qed.

Lemma imports_sample :
  imports (H := Sample.helpers)
    (newRPCServiceDescriptor (H := Sample.helpers) Sample.withService Sample.exportMap)
  = Ok [ {| ImportDescriptor.namespace := "demo_user_pb";
            ImportDescriptor.path := "../demo/user_pb" |};
         {| ImportDescriptor.namespace := "google_protobuf_empty_pb";
            ImportDescriptor.path := "google-protobuf/google/protobuf/empty_pb" |} ].
Proof.
  destruct (imports_host_then_used_dependencies (H := Sample.helpers) Sample.withService
              Sample.exportMap Sample.callingTypes) as (Himports & _ & _).
  - reflexivity.
  - intros d Hd. cbn in Hd.
    repeat (apply elem_of_cons in Hd as [->|Hd]); [reflexivity..|].
    by apply not_elem_of_nil in Hd.
  - rewrite Himports. vm_compute. reflexivity.
Defined.

Lemma client_stubs_sample :
  printServiceStubTypes (H := Sample.helpers) (Printer.new (H := Sample.helpers) 0)
    Sample.userRPC
  = Ok (Printer.print
          (clientClass (H := Sample.helpers) "" Sample.userRPC Sample.userMethods)
          (Printer.new (H := Sample.helpers) 0))
  ∧ List.filter nonStreaming Sample.userMethods
    = [ Sample.getUserRPC;
        Sample.rpc "Ping" "ping" false "google_protobuf_empty_pb.Empty"
          "google_protobuf_empty_pb.Empty" ].
Proof.
  split; [|reflexivity].
  apply (client_stubs_for_non_streaming_methods (H := Sample.helpers)
           (Printer.new (H := Sample.helpers) 0) Sample.userRPC Sample.userMethods).
  reflexivity.
Defined.

Lemma jsonrpc_envelope_sample :
  printStub (H := Sample.helpers) Sample.userRPC
    (CodePrinter.new 2 (Printer.new (H := Sample.helpers) 0)) Sample.getUserRPC
  = emit
      (unaryStub (H := Sample.helpers) "" 2 "getUser" "UserService" "GetUser"
         "demo_user_pb.GetUserRequest" "demo_user_pb.GetUserResponse"
       +:+ batchStub (H := Sample.helpers) "" 2 "getUser" "UserService" "GetUser"
             "demo_user_pb.GetUserRequest" "demo_user_pb.GetUserResponse")
      2 (CodePrinter.new 2 (Printer.new (H := Sample.helpers) 0))
  ∧ outgoingEnvelope "UserService" "GetUser" "requestMessage"
    = "{" +:+ dq +:+ "id" +:+ dq +:+ ": " +:+ dq +:+ "1" +:+ dq +:+ ", "
        +:+ dq +:+ "method" +:+ dq +:+ ": " +:+ dq +:+ "UserService.GetUser" +:+ dq +:+ ", "
        +:+ dq +:+ "params" +:+ dq +:+ ": requestMessage, "
        +:+ dq +:+ "jsonrpc" +:+ dq +:+ ": " +:+ dq +:+ "2.0" +:+ dq +:+ "}".
Proof.
  split; [|reflexivity].
  apply (stubs_build_jsonrpc_envelope (H := Sample.helpers) Sample.userRPC Sample.getUser
           Sample.getUserRPC (CodePrinter.new 2 (Printer.new (H := Sample.helpers) 0)));
    reflexivity.
Defined.

Lemma namespace_sample :
  generateTypescriptDefinition (H := Sample.helpers) Cases.twoServices Sample.exportMap
  = Ok (headerText Cases.twoServices
        +:+ importsText
              [ {| ImportDescriptor.namespace := "demo_user_pb";
                   ImportDescriptor.path := "../demo/user_pb" |};
                {| ImportDescriptor.namespace := "google_protobuf_empty_pb";
                   ImportDescriptor.path := "google-protobuf/google/protobuf/empty_pb" |} ]
        +:+ ("export namespace " +:+ "UserService" +:+ " {" +:+ nl)
        +:+ envelopeTypesText (H := Sample.helpers) "" 1
        +:+ concatStrings
              [ serviceTypesText (H := Sample.helpers) "" 1 Sample.userRPC Sample.userMethods;
                serviceTypesText (H := Sample.helpers) "" 1 (Cases.rpcOf Cases.pingService)
                  Cases.pingMethods ]
        +:+ concatStrings
              [ clientClassText (H := Sample.helpers) "" Sample.userRPC Sample.userMethods;
                clientClassText (H := Sample.helpers) "" (Cases.rpcOf Cases.pingService)
                  Cases.pingMethods ]
        +:+ ("}" +:+ nl)).
Proof.
  destruct (service_body_in_namespace_of_first_service (H := Sample.helpers)
              Cases.twoServices Sample.exportMap Sample.userService [Cases.pingService]
              [Sample.userMethods; Cases.pingMethods] eq_refl eq_refl)
    as (importList & Himp & Hgen).
  vm_compute in Himp. injection Himp as <-. exact Hgen.
Defined.

(** * Further properties of printMessage *)

Lemma print_print (a b : string) (p : Printer.t) :
  Printer.print b (Printer.print a p) = Printer.print (a +:+ b) p.
Proof. unfold Printer.print; cbn. by rewrite append_assoc. Qed.

Lemma print_nil (p : Printer.t) : Printer.print "" p = p.
Proof. destruct p as [i o]. unfold Printer.print; cbn. by rewrite append_nil_r. Qed.

Lemma foldl_print_concat {A : Type} (g : A → string) (l : list A) (p : Printer.t) :
  foldl (λ q a, Printer.print (g a) q) p l = Printer.print (concatStrings (map g l)) p.
Proof.
  revert p. induction l as [|a l IH]; intros p; cbn [foldl map].
  - by rewrite print_nil.
  - by rewrite IH, print_print, concatStrings_cons.
Qed.

Section FurtherMessageProperties.
Context `{Imported}.

Local Abbreviation Field := FieldDescriptorProto.t.

Lemma printIndentedLn_print (line : string) (p : Printer.t) :
  Printer.printIndentedLn line p
  = Printer.print
      (Printer.output (Printer.printIndentedLn line (emptyPrinter (Printer.indentStr p)))) p.
Proof. reflexivity. Qed.

Lemma printMember_print fd (field : Field) (T : string) (p : Printer.t) :
  printMember fd field T p
  = Printer.print
      (Printer.output (printMember fd field T (emptyPrinter (Printer.indentStr p)))) p.
Proof. unfold printMember. repeat case_decide; apply printIndentedLn_print. Qed.

(** The field callback appends its text to the buffer and adds the field
    to its oneof group; on an empty buffer it gives that text. *)
Lemma printField_memberText fn em fd (p : Printer.t) g (field : Field) :
  printField fn em fd (p, g) field
  = (λ t, (Printer.print t p, addToOneOfGroup field g))
      <$> memberText fn em fd (Printer.indentStr p) field.
Proof.
  unfold memberText, printField. destruct (resolveField fn em field) as [[k v|T]|e]; cbn.
  - by rewrite printIndentedLn_print.
  - by rewrite printMember_print.
  - done.
Qed.

Lemma forEach_printField_texts fn em fd (fields : list Field) (members : list string)
    (p : Printer.t) g :
  mapArray (memberText fn em fd (Printer.indentStr p)) fields = Ok members →
  forEach (printField fn em fd) fields (p, g)
  = Ok (Printer.print (concatStrings members) p,
        foldl (λ g f, addToOneOfGroup f g) g fields).
Proof.
  revert members p g. induction fields as [|f l IH]; intros members p g Hm; cbn in Hm.
  - simplify_eq. cbn. by rewrite print_nil.
  - destruct (memberText fn em fd _ f) as [t|e] eqn:Ht; [|done].
    destruct (mapArray _ l) as [ts|e] eqn:Hts; [|done]. simplify_eq.
    cbn [forEach]. rewrite printField_memberText, Ht. cbn [fmap result_fmap].
    rewrite (IH ts); [|done]. cbn [foldl]. by rewrite print_print, concatStrings_cons.
Qed.

Lemma forEach_printField_groups fn em fd (fields : list Field) st st' :
  forEach (printField fn em fd) fields st = Ok st' →
  st'.2 = foldl (λ g f, addToOneOfGroup f g) st.2 fields.
Proof.
  revert st. induction fields as [|f l IH]; intros st Hrun; cbn in Hrun.
  - by simplify_eq.
  - destruct (printField fn em fd st f) as [st1|e] eqn:Hf; [|done].
    rewrite (IH st1 Hrun). cbn [foldl]. f_equal.
    unfold printField in Hf. destruct (resolveField fn em f) as [[k v|T]|e]; cbn in Hf;
      by simplify_eq.
Qed.

Lemma addToOneOfGroup_lookup (f : Field) (g : gmap Z (list Field)) (index : Z) :
  default [] (addToOneOfGroup f g !! index)
  = default [] (g !! index) ++ oneOfGroup [f] index.
Proof.
  unfold addToOneOfGroup, oneOfGroup. rewrite filter_cons, filter_nil.
  destruct (FieldDescriptorProto.getOneofIndex f) as [j|] eqn:Hj.
  - destruct (decide (j = index)) as [->|Hne].
    + rewrite decide_True by done.
      destruct (g !! index) as [existing|] eqn:Hg; by rewrite lookup_insert_eq.
    + rewrite decide_False by congruence. rewrite app_nil_r.
      destruct (g !! j); by rewrite lookup_insert_ne.
  - rewrite decide_False by done. by rewrite app_nil_r.
Qed.

Lemma oneOfGroups_lookup (fields : list Field) (g : gmap Z (list Field)) (index : Z) :
  default [] (foldl (λ g f, addToOneOfGroup f g) g fields !! index)
  = default [] (g !! index) ++ oneOfGroup fields index.
Proof.
  revert g. induction fields as [|f l IH]; intros g; cbn [foldl].
  - unfold oneOfGroup. by rewrite filter_nil, app_nil_r.
  - rewrite IH, addToOneOfGroup_lookup, <- app_assoc. f_equal.
    unfold oneOfGroup. by rewrite (filter_cons _ f l), !filter_cons, filter_nil;
      case_decide.
Qed.

(** X2. When the field loop returns, the group it has collected for a
    oneof index holds the fields of that index, in declaration order, and
    an index no field has is left without fields. *)
Theorem oneof_groups_hold_fields_of_index :
  ∀ fn em fd (fields : list Field) (p : Printer.t) st,
    forEach (printField fn em fd) fields (p, ∅) = Ok st →
    ∀ index : Z, default [] (st.2 !! index) = oneOfGroup fields index.
Proof.
  intros fn em fd fields p st Hrun index.
  rewrite (forEach_printField_groups fn em fd fields _ st Hrun). cbn.
  by rewrite oneOfGroups_lookup, lookup_empty.
Qed.

Lemma printNested_print (out : string) (p : Printer.t) :
  printNested out p = Printer.print out p.
Proof. unfold printNested. case_decide as Ho; [|done]. by rewrite Ho, print_nil. Qed.

Lemma forEach_nested_texts fn em fd (lvl : nat) (l : list DescriptorProto.t)
    (outs : list string) (p : Printer.t) :
  mapArray (λ n, printMessage fn em n lvl fd) l = Ok outs →
  forEach (λ q nested,
             msgOutput ← printMessage fn em nested lvl fd; Ok (printNested msgOutput q))
    l p = Ok (Printer.print (concatStrings outs) p).
Proof.
  revert outs p. induction l as [|n l IH]; intros outs p Ho; cbn in Ho.
  - simplify_eq. cbn. by rewrite print_nil.
  - destruct (printMessage fn em n lvl fd) as [t|e] eqn:Ht; [|done].
    destruct (mapArray _ l) as [ts|e] eqn:Hts; [|done]. simplify_eq.
    cbn [forEach]. rewrite Ht. cbn [mbind result_bind].
    rewrite (IH ts); [|done]. by rewrite printNested_print, print_print, concatStrings_cons.
Qed.

Lemma printExtensions_texts fn em (lvl : nat) (l : list Field) (outs : list string)
    (p : Printer.t) :
  mapArray (λ x, helper (printExtension fn em x (lvl + 1)%nat)) l = Ok outs →
  printExtensions fn em l lvl p = Ok (Printer.print (concatStrings outs) p).
Proof.
  unfold printExtensions. revert outs p.
  induction l as [|x l IH]; intros outs p Ho; cbn in Ho.
  - simplify_eq. cbn. by rewrite print_nil.
  - destruct (helper (printExtension fn em x (lvl + 1)%nat)) as [t|e] eqn:Ht; [|done].
    destruct (mapArray _ l) as [ts|e] eqn:Hts; [|done]. simplify_eq.
    cbn [forEach]. rewrite Ht. cbn [mbind result_bind].
    rewrite (IH ts); [|done]. by rewrite print_print, concatStrings_cons.
Qed.

(** X1. A message that is not a map entry, whose fields print the member
    texts [members], whose nested messages print [nestedTexts] one level
    deeper and whose extensions print [extensionTexts], prints as the
    opening line, the members, the nested messages, the enums, the oneof
    declarations (each given the fields of its index) and the extensions,
    in this order, and the closing line. *)
Theorem printMessage_sections_in_order :
  ∀ fn em fd (m : DescriptorProto.t) (lvl : nat)
    (members nestedTexts extensionTexts : list string),
    isMapEntry (DescriptorProto.getOptions m) = false →
    mapArray (memberText fn em fd (generateIndent lvl)) (DescriptorProto.getFieldList m)
      = Ok members →
    mapArray (λ n, printMessage fn em n (lvl + 1)%nat fd) (DescriptorProto.getNestedTypeList m)
      = Ok nestedTexts →
    mapArray (λ x, helper (printExtension fn em x (lvl + 1)%nat))
      (DescriptorProto.getExtensionList m) = Ok extensionTexts →
    printMessage fn em m lvl fd = Ok (messageText m lvl members nestedTexts extensionTexts).
Proof.
  intros fn em fd m lvl members nestedTexts extensionTexts Hme Hf Hn Hx.
  rewrite printMessage_unfold, Hme. unfold printMessageBody.
  rewrite (forEach_printField_texts fn em fd _ members); [|exact Hf].
  cbn [mbind result_bind fst snd].
  rewrite (forEach_nested_texts fn em fd _ _ nestedTexts); [|exact Hn].
  cbn [mbind result_bind].
  unfold printEnums, printOneOfs.
  rewrite (foldl_print_concat (λ e, printEnum e (lvl + 1)%nat)).
  rewrite (foldl_print_concat (λ d : string, d)), map_id.
  rewrite (printExtensions_texts fn em lvl _ extensionTexts); [|exact Hx].
  cbn [mbind result_bind]. f_equal.
  rewrite !print_print. unfold messageText, Printer.getOutput, Printer.printLn, Printer.print,
    Printer.new; cbn [Printer.output Printer.indentStr].
  rewrite (imap_ext _ (λ index d,
                         printOneOfDecl d
                           (oneOfGroup (DescriptorProto.getFieldList m) (Z.of_nat index))
                           (lvl + 1)%nat)).
  - by autorewrite with text.
  - intros i d _. by rewrite oneOfGroups_lookup, lookup_empty.
Qed.

Lemma resolved_fields_print fn em fd (l : list Field) (rs : list Resolved) st :
  mapArray (resolveField fn em) l = Ok rs → ∃ st', forEach (printField fn em fd) l st = Ok st'.
Proof.
  intros Hrs. apply forEach_ok. intros s a Ha.
  destruct (mapArray_elem _ _ _ a Hrs Ha) as [r Hr].
  unfold printField. rewrite Hr. destruct r; by eexists.
Qed.

(** X6. printMessage throws the error of the first field, in declaration
    order, whose type fails to resolve: the fields after it, the nested
    messages and the extensions are not looked at. *)
Theorem first_failing_field_decides_error :
  ∀ fn em fd (m : DescriptorProto.t) (lvl : nat) (pre post : list Field) (f : Field)
    (rs : list Resolved) (e : exn),
    isMapEntry (DescriptorProto.getOptions m) = false →
    DescriptorProto.getFieldList m = pre ++ f :: post →
    mapArray (resolveField fn em) pre = Ok rs →
    resolveField fn em f = Throw e →
    printMessage fn em m lvl fd = Throw e.
Proof.
  intros fn em fd m lvl pre post f rs e Hme Hl Hpre Hf.
  rewrite printMessage_unfold, Hme. unfold printMessageBody. rewrite Hl, forEach_app.
  destruct (resolved_fields_print fn em fd pre rs
              (Printer.printLn ("export class " +:+ DescriptorProto.getName m +:+ " {")
                 (Printer.new lvl), ∅) Hpre) as [st ->].
  cbn [mbind result_bind forEach]. unfold printField at 1. by rewrite Hf.
Qed.

Lemma printMessage_field_throws fn em fd m (field : Field) :
  examined m field → (∀ st, throws (printField fn em fd st field)) →
  ∀ lvl, throws (printMessage fn em m lvl fd).
Proof.
  intros Hex Hthrows. induction Hex as [m f Hme Hin|m n f Hme Hin Hex IH]; intros lvl;
    rewrite printMessage_unfold, Hme; unfold printMessageBody.
  - destruct (forEach_throws (printField fn em fd) _ f Hin Hthrows
                (Printer.printLn ("export class " +:+ DescriptorProto.getName m +:+ " {")
                   (Printer.new lvl), ∅)) as [e ->].
    by exists e.
  - destruct (forEach (printField fn em fd) _ _) as [st|e]; cbn; [|by exists e].
    destruct (forEach_throws
                (λ p nested,
                   msgOutput ← printMessage fn em nested (lvl + 1)%nat fd;
                   Ok (printNested msgOutput p))
                _ n Hin) with (s := st.1) as [e ->].
    + intros s. destruct (IH Hthrows (lvl + 1)%nat) as [e ->]. by exists e.
    + by exists e.
Qed.

(** X5. A field whose type the export map records as a map entry without
    key and value types makes the field callback throw a TypeError, and a
    key or value type the helper cannot resolve makes it throw the helper's
    error, the key first; any message that examines such a field throws. *)
Theorem malformed_map_entry_aborts :
  ∀ fn em fd (field : Field) (e : ExportMessageEntry),
    FieldDescriptorProto.getType field = MESSAGE_TYPE →
    getMessage em (slice1 (FieldDescriptorProto.getTypeName field)) = Some e →
    isMapEntry (messageOptions e) = true →
    (mapFieldOptions e = None →
       (∀ st, printField fn em fd st field = Throw TypeError)
       ∧ ∀ m lvl, examined m field → throws (printMessage fn em m lvl fd))
    ∧ (∀ o msg, mapFieldOptions e = Some o →
         getFieldType (key o).1 (key o).2 fn em = inl msg →
         (∀ st, printField fn em fd st field = Throw (HelperError msg))
         ∧ ∀ m lvl, examined m field → throws (printMessage fn em m lvl fd))
    ∧ (∀ o K msg, mapFieldOptions e = Some o →
         getFieldType (key o).1 (key o).2 fn em = inr K →
         getFieldType (value o).1 (value o).2 fn em = inl msg →
         (∀ st, printField fn em fd st field = Throw (HelperError msg))
         ∧ ∀ m lvl, examined m field → throws (printMessage fn em m lvl fd)).
Proof.
  intros fn em fd field e Ht He Hme.
  assert (∀ x, (∀ st, printField fn em fd st field = Throw x) →
               ∀ m lvl, examined m field → throws (printMessage fn em m lvl fd)) as Hall.
  { intros x Hx m lvl Hex. apply (printMessage_field_throws fn em fd m field Hex).
    intros st. exists x. apply Hx. }
  split; [|split].
  - intros Ho.
    assert (∀ st, printField fn em fd st field = Throw TypeError) as Hp; [|by eauto].
    intros st. unfold printField, resolveField. rewrite decide_True by done.
    by rewrite He, Hme, Ho.
  - intros o msg Ho Hk.
    assert (∀ st, printField fn em fd st field = Throw (HelperError msg)) as Hp; [|by eauto].
    intros st. unfold printField, resolveField. rewrite decide_True by done.
    by rewrite He, Hme, Ho, Hk.
  - intros o K msg Ho Hk Hv.
    assert (∀ st, printField fn em fd st field = Throw (HelperError msg)) as Hp; [|by eauto].
    intros st. unfold printField, resolveField. rewrite decide_True by done.
    by rewrite He, Hme, Ho, Hk, Hv.
Qed.

(** X3. The type expression of a field that is neither message- nor
    enum-typed does not depend on the export map and never fails: it is
    [number] under the jstype override JS_NUMBER, [string] under
    JS_STRING, and the name the primitive table gives the wire type when
    there is no override or the override is JS_NORMAL. *)
Theorem scalar_type_follows_jstype :
  ∀ fn em (field : Field),
    FieldDescriptorProto.getType field ≠ MESSAGE_TYPE →
    FieldDescriptorProto.getType field ≠ ENUM_TYPE →
    ∃ T, resolveField fn em field = Ok (ExportType T)
         ∧ (∀ fn' em', resolveField fn' em' field = Ok (ExportType T))
         ∧ match FieldDescriptorProto.getOptions field ≫= getJstype with
           | Some JS_NUMBER => T = "number"
           | Some JS_STRING => T = "string"
           | Some JS_NORMAL | None => T = getTypeName (FieldDescriptorProto.getType field)
           end.
Proof.
  intros fn em field Hm He. exists (scalarExportType field).
  assert (∀ fn' em', resolveField fn' em' field = Ok (ExportType (scalarExportType field)))
    as Hr.
  { intros fn' em'. unfold resolveField. by rewrite !decide_False by done. }
  split; [apply Hr|]. split; [apply Hr|].
  unfold scalarExportType. destruct (FieldDescriptorProto.getOptions field) as [o|]; cbn;
    [|done].
  by destruct (getJstype o) as [[]|].
Qed.

End FurtherMessageProperties.

(** * Further properties of the service generator *)

Section FurtherServiceProperties.
Context `{Imported}.

(** ** The method descriptors *)

Lemma mapArray_app_throw {A B : Type} (f : A → result B) (pre post : list A) (a : A)
    (r : list B) (e : exn) :
  mapArray f pre = Ok r → f a = Throw e → mapArray f (pre ++ a :: post) = Throw e.
Proof.
  revert r. induction pre as [|x pre IH]; intros r Hr Ha; cbn in *.
  - by rewrite Ha.
  - destruct (f x) as [b|e']; [|done].
    destruct (mapArray f pre) as [bs|e']; [|done]. by rewrite (IH bs).
Qed.

(** X8. The [methods] getter throws the error of the first method, in
    declaration order, that cannot be described: the helper's error when
    the request type does not resolve, else the helper's error when the
    response type does not resolve, else a TypeError when the method name
    is empty. *)
Theorem methods_first_failure :
  ∀ (d : RPCDescriptor) (pre post : list MethodDescriptorProto.t)
    (md : MethodDescriptorProto.t) (ms : list RPCMethodDescriptor.t),
    ServiceDescriptorProto.getMethodList (protoService d) = pre ++ md :: post →
    mapArray (rpcMethod d) pre = Ok ms →
    let request := getFieldType MESSAGE_TYPE
                     (slice1 (MethodDescriptorProto.getInputType md)) "" (rpcExportMap d) in
    let response := getFieldType MESSAGE_TYPE
                      (slice1 (MethodDescriptorProto.getOutputType md)) "" (rpcExportMap d) in
    (∀ msg, request = inl msg → methods d = Throw (HelperError msg))
    ∧ (∀ r msg, request = inr r → response = inl msg → methods d = Throw (HelperError msg))
    ∧ (∀ r s, request = inr r → response = inr s →
              MethodDescriptorProto.getName md = "" → methods d = Throw TypeError).
Proof.
  intros d pre post md ms Hl Hpre request response. unfold methods. rewrite Hl.
  split; [|split].
  - intros msg Hq. apply (mapArray_app_throw _ _ _ _ ms); [done|].
    unfold rpcMethod, getCallingTypes. fold request. by rewrite Hq.
  - intros r msg Hq Hr. apply (mapArray_app_throw _ _ _ _ ms); [done|].
    unfold rpcMethod, getCallingTypes. fold request response. by rewrite Hq, Hr.
  - intros r s Hq Hr Hn. apply (mapArray_app_throw _ _ _ _ ms); [done|].
    unfold rpcMethod, getCallingTypes. fold request response. by rewrite Hq, Hr, Hn.
Qed.

(** ** isUsed *)

Lemma some_app {A : Type} (g : A → result bool) (l1 l2 : list A) :
  some g (l1 ++ l2)
  = match some g l1 with
    | Ok true => Ok true
    | Ok false => some g l2
    | Throw e => Throw e
    end.
Proof.
  induction l1 as [|a l1 IH]; [done|]. cbn. by destruct (g a) as [[]|e].
Qed.

Lemma some_concat {A B : Type} (g : B → result bool) (ml : A → list B) (l : list A) :
  some (λ a, some g (ml a)) l = some g (concat (map ml l)).
Proof.
  induction l as [|a l IH]; [done|]. cbn. rewrite some_app, IH.
  by destruct (some g (ml a)) as [[]|e].
Qed.

Lemma isUsed_allMethods fd (ns : string) em :
  isUsed fd ns em
  = some (λ md, ct ← getCallingTypes md em; Ok (inNamespace ns ct)) (allMethods fd).
Proof. unfold isUsed, allMethods. by rewrite <- some_concat. Qed.

(** X10. [isUsed] answers at the first method, service after service,
    whose request or response type starts with the namespace and a dot:
    when the methods before it resolve, the answer is true whatever comes
    after it, resolvable or not; and when the methods before it resolve
    without a match and it does not resolve itself, [isUsed] throws. *)
Theorem isUsed_stops_at_first_match :
  ∀ fd em (ns : string) (pre post : list MethodDescriptorProto.t)
    (md : MethodDescriptorProto.t) (cts : list CallingTypes.t),
    allMethods fd = pre ++ md :: post →
    mapArray (λ m, getCallingTypes m em) pre = Ok cts →
    (∀ ct, getCallingTypes md em = Ok ct → inNamespace ns ct = true →
           isUsed fd ns em = Ok true)
    ∧ (∀ e, getCallingTypes md em = Throw e → existsb (inNamespace ns) cts = false →
            isUsed fd ns em = Throw e).
Proof.
  intros fd em ns pre post md cts Hl Hpre.
  rewrite isUsed_allMethods, Hl, some_app.
  rewrite (some_mapArray _ (inNamespace ns) pre cts Hpre).
  split.
  - intros ct Hct Hin. destruct (existsb (inNamespace ns) cts); [done|].
    cbn. by rewrite Hct; cbn; rewrite Hin.
  - intros e He Hnone. rewrite Hnone. cbn. by rewrite He.
Qed.

(** ** The import list *)

Lemma filterArray_kept {A : Type} (f : A → result bool) (l r : list A) :
  filterArray f l = Ok r → r `sublist_of` l ∧ Forall (λ a, f a = Ok true) r.
Proof.
  revert r. induction l as [|a l IH]; intros r Hr; cbn in Hr.
  - simplify_eq. split; [done|constructor].
  - destruct (f a) as [b|e] eqn:Hf; [|done].
    destruct (filterArray f l) as [r'|e]; [|done]. simplify_eq.
    destruct (IH r' eq_refl) as [Hsub Hall]. destruct b.
    + split; [by constructor|by constructor].
    + split; [by constructor|done].
Qed.

(** X11. Whenever the import list is computed, it is the host entry
    followed by the entries of some of the declared dependencies, in their
    declared order and none added, each one a dependency for which
    [isUsed] answered true. *)
Theorem imports_only_declared_dependencies :
  ∀ (sd : RPCServiceDescriptor) (l : list ImportDescriptor.t),
    imports sd = Ok l →
    ∃ used,
      l = hostProto sd :: map (dependencyImport sd) used
      ∧ used `sublist_of` FileDescriptorProto.getDependencyList (fileDescriptor sd)
      ∧ Forall (λ d, isUsed (fileDescriptor sd) (filePathToPseudoNamespace d)
                       (sdExportMap sd) = Ok true) used.
Proof.
  intros sd l. unfold imports.
  destruct (filterArray _ _) as [used|e] eqn:Hused; cbn; [|done].
  intros [= <-]. exists used. split; [done|]. by apply filterArray_kept in Hused.
Qed.

(** ** The type aliases and the class of a service *)

(** X12. When the method descriptors of a service are built, the service
    type printer appends one type alias for every declared method,
    streaming or not, in declaration order, then the class of the service
    with its service-name member and one static member for every method,
    and leaves the printer at the depth it had. *)
Theorem service_types_for_every_method :
  ∀ (printer : CodePrinter.t) (service : RPCDescriptor) (ms : list RPCMethodDescriptor.t),
    methods service = Ok ms →
    printServiceTypes printer service
      = Ok (emit (serviceTypesText (Printer.indentStr (CodePrinter.printer printer))
                    (CodePrinter.depth printer) service ms)
              (CodePrinter.depth printer) printer)
    ∧ map RPCMethodDescriptor.nameAsPascalCase ms
      = map MethodDescriptorProto.getName
          (ServiceDescriptorProto.getMethodList (protoService service))
    ∧ Forall (λ m, RPCMethodDescriptor.serviceName m = name service) ms.
Proof.
  intros cp service ms Hms. split; [|split].
  - pose proof (printServiceTypes_emit "" (CodePrinter.depth cp) cp service ms Hms) as Hp.
    rewrite <- emit_nil in Hp. rewrite Hp. by autorewrite with text.
  - apply mapArray_Forall2 in Hms.
    induction Hms as [|md m mds ms' Hm _ IH]; [done|]. cbn.
    apply rpcMethod_fields in Hm as (-> & _). by rewrite IH.
  - apply mapArray_Forall2 in Hms.
    induction Hms as [|md m mds ms' Hm _ IH]; constructor; [|done].
    by apply rpcMethod_fields in Hm as (_ & _ & -> & _).
Qed.

(** ** The service body *)

(** X13. When the method descriptors of all services are built, the
    service body is the two envelope types, then the type aliases and
    class of every service in declaration order, then, after all of them,
    one Client class for every service in the same order, each followed by
    an empty line; and the generated text of a file with services ends
    with this body and the closing brace. *)
Theorem service_body_types_then_clients :
  ∀ fd em (mss : list (list RPCMethodDescriptor.t)),
    let sd := newRPCServiceDescriptor fd em in
    let body :=
      envelopeTypesText "" 1
      +:+ concatStrings (zip_with (serviceTypesText "" 1) (services sd) mss)
      +:+ concatStrings (zip_with (clientClassText "") (services sd) mss) in
    mapArray methods (services sd) = Ok mss →
    serviceBody sd = Ok body
    ∧ (FileDescriptorProto.getServiceList fd ≠ [] →
       ∃ prologue,
         generateTypescriptDefinition fd em = Ok (prologue +:+ body +:+ ("}" +:+ nl))).
Proof.
  intros fd em mss sd body Hmss. split.
  - unfold serviceBody.
    rewrite (emit_nil (CodePrinter.new 1 (emptyPrinter ""))).
    cbn [CodePrinter.depth CodePrinter.new].
    destruct (services_emit (services sd) mss "" 1 (CodePrinter.new 1 (emptyPrinter ""))
                Hmss) as (cpA & -> & HB).
    cbn [mbind result_bind]. rewrite HB. reflexivity.
  - intros Hne.
    destruct (FileDescriptorProto.getServiceList fd) as [|first rest] eqn:Hs; [done|].
    destruct (allMethods_callingTypes fd em) as [cts Hcts].
    { intros service Hin. by eapply mapArray_elem. }
    destruct (imports_ok fd em cts Hcts) as [importList Himp].
    exists (headerText fd +:+ importsText importList
            +:+ ("export namespace " +:+ ServiceDescriptorProto.getName first
                 +:+ " {" +:+ nl)).
    rewrite (generateTypescriptDefinition_closed fd em first rest importList mss Hs Himp Hmss).
    unfold body. fold sd. f_equal. by autorewrite with text.
Qed.

(** ** When generation fails *)

Lemma generate_throws fd em (service : RPCDescriptor) :
  service ∈ services (newRPCServiceDescriptor fd em) →
  throws (methods service) →
  throws (generateTypescriptDefinition fd em).
Proof.
  intros Hin [e He]. unfold generateTypescriptDefinition.
  destruct (services (newRPCServiceDescriptor fd em)) as [|first l] eqn:Hsv.
  { by apply not_elem_of_nil in Hin. }
  destruct (imports _) as [importList|e']; cbn [mbind result_bind]; [|by exists e'].
  destruct (forEach_throws printServiceTypes (first :: l) service Hin) with (s :=
    printEnvelopeTypes
      (CodePrinter.indent
         (CodePrinter.printLn ("export namespace " +:+ name first +:+ " {")
            (printImports importList
               (printHeader (newRPCServiceDescriptor fd em)
                  (CodePrinter.new 0 (Printer.new 0))))))) as [e' He'].
  - intros s. exists e. unfold printServiceTypes. by rewrite He.
  - rewrite He'. by exists e'.
Qed.

Lemma generate_returns fd em :
  (∀ service, service ∈ services (newRPCServiceDescriptor fd em) →
              ∃ ms, methods service = Ok ms) →
  ∃ out, generateTypescriptDefinition fd em = Ok out.
Proof.
  intros Hms. unfold generateTypescriptDefinition.
  destruct (allMethods_callingTypes fd em Hms) as [cts Hcts].
  destruct (imports_ok fd em cts Hcts) as [importList Himp].
  destruct (services (newRPCServiceDescriptor fd em)) as [|first l] eqn:Hsv; [by eexists|].
  rewrite Himp. cbn [mbind result_bind].
  destruct (forEach_ok printServiceTypes (first :: l)) with (s :=
    printEnvelopeTypes
      (CodePrinter.indent
         (CodePrinter.printLn ("export namespace " +:+ name first +:+ " {")
            (printImports importList
               (printHeader (newRPCServiceDescriptor fd em)
                  (CodePrinter.new 0 (Printer.new 0))))))) as [cpA ->].
  { intros s a Ha. destruct (Hms a Ha) as [ms Hm]. by eapply printServiceTypes_ok. }
  cbn [mbind result_bind].
  destruct (forEach_ok printServiceClient (first :: l)) with (s := cpA) as [cpB ->].
  { intros s a Ha. destruct (Hms a Ha) as [ms Hm]. by eapply printServiceClient_ok. }
  by eexists.
Qed.

Lemma methods_all_or_throw (l : list RPCDescriptor) :
  (∀ service, service ∈ l → ∃ ms, methods service = Ok ms)
  ∨ (∃ service, service ∈ l ∧ throws (methods service)).
Proof.
  induction l as [|sv l [IH|(s & Hs & Ht)]].
  - left. intros s Hs. by apply not_elem_of_nil in Hs.
  - destruct (methods sv) as [ms|e] eqn:Hms.
    + left. intros s [->|Hs]%elem_of_cons; [by exists ms|by apply IH].
    + right. exists sv. split; [apply list_elem_of_here|by exists e].
  - right. exists s. split; [by apply list_elem_of_further|done].
Qed.

(** X9. generateTypescriptDefinition throws exactly when the method
    descriptors of some service of the file cannot be built (a request or
    response type that does not resolve, or a method without a name),
    whether or not the method streams; otherwise it returns a text. *)
Theorem generation_fails_iff_a_method_fails :
  ∀ fd em,
    (throws (generateTypescriptDefinition fd em)
     ↔ ∃ service, service ∈ services (newRPCServiceDescriptor fd em)
                  ∧ throws (methods service))
    ∧ ((∃ out, generateTypescriptDefinition fd em = Ok out)
       ↔ ∀ service, service ∈ services (newRPCServiceDescriptor fd em) →
                    ∃ ms, methods service = Ok ms).
Proof.
  intros fd em.
  destruct (methods_all_or_throw (services (newRPCServiceDescriptor fd em)))
    as [Hall|(s & Hs & Ht)].
  - destruct (generate_returns fd em Hall) as [out Hout]. split; split.
    + intros [e He]. congruence.
    + intros (s & Hs & [e He]). destruct (Hall s Hs) as [ms Hms]. congruence.
    + done.
    + by exists out.
  - destruct (generate_throws fd em s Hs Ht) as [e He]. split; split.
    + by exists s.
    + by exists e.
    + intros [out Hout]. congruence.
    + intros Hall. destruct Ht as [e' He'], (Hall s Hs) as [ms Hms]. congruence.
Qed.

(** ** The entry point *)

Lemma generate_no_services fd em :
  FileDescriptorProto.getServiceList fd = [] →
  generateTypescriptDefinition fd em = Ok (headerText fd).
Proof.
  intros Hs. unfold generateTypescriptDefinition, services. cbn. rewrite Hs. cbn.
  unfold packageName, filename, headerText. cbn. f_equal. by autorewrite with text.
Qed.

(** X7. generateJSONRPCService returns one file, named after the input
    file with the suffix [_service.ts], whose content is the generated
    definition: the header alone for a file without services. When the
    method descriptors of some service cannot be built it throws and
    returns no file. *)
Theorem one_service_file_or_none :
  ∀ (filename : string) fd em,
    (∀ out, generateTypescriptDefinition fd em = Ok out →
       generateJSONRPCService filename fd em
       = Ok [ {| File.getName := filename +:+ "_service.ts"; File.getContent := out |} ])
    ∧ (FileDescriptorProto.getServiceList fd = [] →
       generateJSONRPCService filename fd em
       = Ok [ {| File.getName := filename +:+ "_service.ts";
                 File.getContent := headerText fd |} ])
    ∧ (∀ service, service ∈ services (newRPCServiceDescriptor fd em) →
                  throws (methods service) →
                  throws (generateJSONRPCService filename fd em)).
Proof.
  intros filename fd em. unfold generateJSONRPCService. split; [|split].
  - intros out ->. reflexivity.
  - intros Hs. by rewrite (generate_no_services fd em Hs).
  - intros service Hin Ht. destruct (generate_throws fd em service Hin Ht) as [e ->].
    by exists e.
Qed.

End FurtherServiceProperties.

(** * The further statements on the sample schema *)

Lemma printMessage_sections_sample :
  printMessage (H := Sample.helpers) "demo/user.proto" Sample.exportMap Cases.contact 0
    Sample.proto3
  = Ok (messageText (H := Sample.helpers) Cases.contact 0 Cases.contactMembers
          Cases.contactNested []).
Proof.
  apply (printMessage_sections_in_order (H := Sample.helpers)); reflexivity.
Defined.

Lemma oneof_groups_sample :
  ∃ st,
    forEach (printField (H := Sample.helpers) "demo/user.proto" Sample.exportMap Sample.proto3)
      Cases.contactFields (Printer.new (H := Sample.helpers) 0, ∅) = Ok st
    ∧ default [] (st.2 !! 0) = [ Cases.email; Cases.phone ]
    ∧ default [] (st.2 !! 1) = [ Cases.nick ]
    ∧ default [] (st.2 !! 2) = [].
Proof.
  destruct (forEach (printField (H := Sample.helpers) "demo/user.proto" Sample.exportMap
                       Sample.proto3)
              Cases.contactFields (Printer.new (H := Sample.helpers) 0, ∅))
    as [st|e] eqn:Hrun; [|vm_compute in Hrun; discriminate Hrun].
  exists st. split; [reflexivity|].
  rewrite !(oneof_groups_hold_fields_of_index (H := Sample.helpers) _ _ _ _ _ _ Hrun).
  repeat split; reflexivity.
Defined.

Lemma first_failing_field_sample :
  printMessage (H := Sample.helpers) "demo/user.proto" Cases.exportMap Cases.twoFailures 0
    Sample.proto3
  = Throw (NoMessageExport "demo.Missing").
Proof.
  apply (first_failing_field_decides_error (H := Sample.helpers) "demo/user.proto"
           Cases.exportMap Sample.proto3 Cases.twoFailures 0%nat
           [Sample.names] [Cases.bare] Sample.dangling [ExportType "string"]);
    reflexivity.
Defined.

Lemma malformed_map_entry_sample :
  printField (H := Sample.helpers) "demo/user.proto" Cases.exportMap Sample.proto3
    (Printer.new (H := Sample.helpers) 0, ∅) Cases.bare = Throw TypeError
  ∧ throws (printMessage (H := Sample.helpers) "demo/user.proto" Cases.exportMap
              Cases.holder 0 Sample.proto3).
Proof.
  destruct (malformed_map_entry_aborts (H := Sample.helpers) "demo/user.proto"
              Cases.exportMap Sample.proto3 Cases.bare Cases.bareEntry)
    as (Hnone & _ & _); [reflexivity..|].
  destruct (Hnone eq_refl) as [Hfield Hmessage].
  split; [apply Hfield|].
  apply Hmessage. apply examined_field; [reflexivity|apply list_elem_of_here].
Defined.

Lemma scalar_jstype_sample :
  ∃ T,
    resolveField (H := Sample.helpers) "demo/user.proto" Sample.exportMap
      (Cases.counter (Some JS_STRING)) = Ok (ExportType T)
    ∧ T = "string".
Proof.
  destruct (scalar_type_follows_jstype (H := Sample.helpers) "demo/user.proto"
              Sample.exportMap (Cases.counter (Some JS_STRING)))
    as (T & Hr & _ & HT); [done|done|].
  exists T. split; [exact Hr|exact HT].
Defined.

Lemma methods_first_failure_sample :
  methods (H := Sample.helpers)
    (Cases.rpcOf (Cases.service "UserService" [ Sample.getUser; Cases.nameless; Cases.lost ]))
  = Throw TypeError
  ∧ methods (H := Sample.helpers)
      (Cases.rpcOf (Cases.service "UserService" [ Sample.getUser; Cases.lost; Cases.nameless ]))
    = Throw (HelperError "Could not getFieldType for message: demo.Missing").
Proof.
  split.
  - destruct (methods_first_failure (H := Sample.helpers)
                (Cases.rpcOf (Cases.service "UserService" [ Sample.getUser; Cases.nameless; Cases.lost ]))
                [Sample.getUser] [Cases.lost] Cases.nameless
                [Sample.rpc "GetUser" "getUser" false "demo_user_pb.GetUserRequest"
                   "demo_user_pb.GetUserResponse"])
      as (_ & _ & Hname); [reflexivity|vm_compute; reflexivity|].
    apply (Hname "demo_user_pb.GetUserRequest" "demo_user_pb.GetUserResponse");
      reflexivity.
  - destruct (methods_first_failure (H := Sample.helpers)
                (Cases.rpcOf (Cases.service "UserService" [ Sample.getUser; Cases.lost; Cases.nameless ]))
                [Sample.getUser] [Cases.nameless] Cases.lost
                [Sample.rpc "GetUser" "getUser" false "demo_user_pb.GetUserRequest"
                   "demo_user_pb.GetUserResponse"])
      as (Hrequest & _ & _); [reflexivity|vm_compute; reflexivity|].
    apply Hrequest. reflexivity.
Defined.

Lemma isUsed_first_match_sample :
  isUsed (H := Sample.helpers) Cases.mixedFile "google_protobuf_empty_pb" Sample.exportMap
    = Ok true
  ∧ isUsed (H := Sample.helpers) Cases.mixedFile "demo_unused_pb" Sample.exportMap
    = Throw (HelperError "Could not getFieldType for message: demo.Missing").
Proof.
  split.
  - destruct (isUsed_stops_at_first_match (H := Sample.helpers) Cases.mixedFile
                Sample.exportMap "google_protobuf_empty_pb" [] [Cases.lost] Cases.ping [])
      as [Hfirst _]; [reflexivity..|].
    apply (Hfirst {| CallingTypes.requestType := "google_protobuf_empty_pb.Empty";
                     CallingTypes.responseType := "google_protobuf_empty_pb.Empty" |});
      reflexivity.
  - destruct (isUsed_stops_at_first_match (H := Sample.helpers) Cases.mixedFile
                Sample.exportMap "demo_unused_pb" [Cases.ping] [] Cases.lost
                [ {| CallingTypes.requestType := "google_protobuf_empty_pb.Empty";
                     CallingTypes.responseType := "google_protobuf_empty_pb.Empty" |} ])
      as [_ Hthrow]; [reflexivity..|].
    apply Hthrow; reflexivity.
Defined.

Lemma imports_only_declared_sample :
  ∃ used,
    [ {| ImportDescriptor.namespace := "demo_user_pb";
         ImportDescriptor.path := "../demo/user_pb" |};
      {| ImportDescriptor.namespace := "google_protobuf_empty_pb";
         ImportDescriptor.path := "google-protobuf/google/protobuf/empty_pb" |} ]
    = hostProto (H := Sample.helpers)
        (newRPCServiceDescriptor (H := Sample.helpers) Sample.withService Sample.exportMap)
      :: map (dependencyImport (H := Sample.helpers)
                (newRPCServiceDescriptor (H := Sample.helpers) Sample.withService
                   Sample.exportMap)) used
    ∧ used `sublist_of` [ "google/protobuf/empty.proto"; "demo/unused.proto" ]
    ∧ Forall (λ d, isUsed (H := Sample.helpers) Sample.withService
                     (Sample.pseudoNamespace d) Sample.exportMap = Ok true) used.
Proof.
  apply (imports_only_declared_dependencies (H := Sample.helpers)
           (newRPCServiceDescriptor (H := Sample.helpers) Sample.withService
              Sample.exportMap)).
  vm_compute. reflexivity.
Defined.

Lemma service_types_sample :
  printServiceTypes (H := Sample.helpers)
    (CodePrinter.new 1 (Printer.new (H := Sample.helpers) 0)) Sample.userRPC
  = Ok (emit (serviceTypesText (H := Sample.helpers) "" 1 Sample.userRPC Sample.userMethods)
          1 (CodePrinter.new 1 (Printer.new (H := Sample.helpers) 0)))
  ∧ map RPCMethodDescriptor.nameAsPascalCase Sample.userMethods = [ "GetUser"; "Watch"; "Ping" ].
Proof.
  destruct (service_types_for_every_method (H := Sample.helpers)
              (CodePrinter.new 1 (Printer.new (H := Sample.helpers) 0)) Sample.userRPC
              Sample.userMethods) as (Htext & Hnames & _); [reflexivity|].
  split; [exact Htext|exact Hnames].
Defined.

Lemma service_body_sample :
  serviceBody (H := Sample.helpers)
    (newRPCServiceDescriptor (H := Sample.helpers) Cases.twoServices Sample.exportMap)
  = Ok (envelopeTypesText (H := Sample.helpers) "" 1
        +:+ concatStrings
              [ serviceTypesText (H := Sample.helpers) "" 1 Sample.userRPC Sample.userMethods;
                serviceTypesText (H := Sample.helpers) "" 1 (Cases.rpcOf Cases.pingService)
                  Cases.pingMethods ]
        +:+ concatStrings
              [ clientClassText (H := Sample.helpers) "" Sample.userRPC Sample.userMethods;
                clientClassText (H := Sample.helpers) "" (Cases.rpcOf Cases.pingService)
                  Cases.pingMethods ])
  ∧ ∃ prologue,
      generateTypescriptDefinition (H := Sample.helpers) Cases.twoServices Sample.exportMap
      = Ok (prologue
            +:+ (envelopeTypesText (H := Sample.helpers) "" 1
                 +:+ concatStrings
                       [ serviceTypesText (H := Sample.helpers) "" 1 Sample.userRPC
                           Sample.userMethods;
                         serviceTypesText (H := Sample.helpers) "" 1
                           (Cases.rpcOf Cases.pingService) Cases.pingMethods ]
                 +:+ concatStrings
                       [ clientClassText (H := Sample.helpers) "" Sample.userRPC
                           Sample.userMethods;
                         clientClassText (H := Sample.helpers) ""
                           (Cases.rpcOf Cases.pingService) Cases.pingMethods ])
            +:+ ("}" +:+ nl)).
Proof.
  destruct (service_body_types_then_clients (H := Sample.helpers) Cases.twoServices
              Sample.exportMap [Sample.userMethods; Cases.pingMethods] eq_refl)
    as [Hbody Hgen].
  split; [exact Hbody|]. apply Hgen. discriminate.
Defined.

Lemma generation_fails_sample :
  throws (generateTypescriptDefinition (H := Sample.helpers) Cases.lostFile Sample.exportMap)
  ∧ ∃ out, generateTypescriptDefinition (H := Sample.helpers) Sample.withService
             Sample.exportMap = Ok out.
Proof.
  split.
  - apply (generation_fails_iff_a_method_fails (H := Sample.helpers) Cases.lostFile
             Sample.exportMap).
    exists (Cases.rpcOf (Cases.service "Broken" [ Cases.lost ])).
    split; [apply list_elem_of_here|]. eexists. reflexivity.
  - apply (generation_fails_iff_a_method_fails (H := Sample.helpers) Sample.withService
             Sample.exportMap).
    intros service Hin. cbn in Hin.
    apply elem_of_cons in Hin as [->|Hin]; [|by apply not_elem_of_nil in Hin].
    exists Sample.userMethods. reflexivity.
Defined.

Lemma service_file_sample :
  generateJSONRPCService (H := Sample.helpers) "demo/user" Sample.proto3 Sample.exportMap
  = Ok [ {| File.getName := "demo/user_service.ts";
            File.getContent := "// package: demo" +:+ nl +:+ "// file: demo/user.proto"
                                 +:+ nl +:+ nl |} ]
  ∧ throws (generateJSONRPCService (H := Sample.helpers) "demo/user" Cases.lostFile
              Sample.exportMap).
Proof.
  destruct (one_service_file_or_none (H := Sample.helpers) "demo/user" Sample.proto3
              Sample.exportMap) as (_ & Hnone & _).
  destruct (one_service_file_or_none (H := Sample.helpers) "demo/user" Cases.lostFile
              Sample.exportMap) as (_ & _ & Hthrows).
  split; [apply Hnone; reflexivity|].
  apply (Hthrows (Cases.rpcOf (Cases.service "Broken" [ Cases.lost ])));
    [apply list_elem_of_here|]. eexists. reflexivity.
Defined.
